(** * The Still Point: access gate and reflection generator of [app.py]

    A shallow embedding of the Streamlit script [src/app.py]:
    [get_poem], [check_password] with its [password_entered] callback, and
    [main].  Python text is a [string] of UTF-8 bytes; dictionaries
    ([os.environ], [st.secrets], [st.session_state]) are [gmap]s keyed by
    strings; exceptions and the calls to Streamlit and to the generation
    provider are explicit: a computation yields the events it emitted, in
    order, together with a value or the exception it raised. *)

From Stdlib Require Import Ascii String.
From stdpp Require Import base option list gmap strings.

Local Open Scope string_scope.
Local Open Scope list_scope.
Local Open Scope stdpp_scope.

(** ** Exceptions *)

(** The classes that matter to the handlers of [app.py]: [except Exception]
    catches the subclasses of [Exception]; a bare [except:] catches all.
    [StopException] is what [st.stop()] raises; like [KeyboardInterrupt] and
    [SystemExit] (here [BaseOnly]) it derives from [BaseException] only. *)
Inductive exn_class : Type :=
  | KeyError
  | IndexError
  | ValueError
  | ProviderError
  | OtherException
  | StopException
  | BaseOnly.

(** An exception [e]: its class and [str(e)]. *)
Record exn : Type := Exn { exn_cls : exn_class; exn_str : string }.

Definition is_Exception (e : exn) : bool :=
  match exn_cls e with
  | StopException | BaseOnly => false
  | _ => true
  end.

Inductive result (A : Type) : Type :=
  | Ok (a : A)
  | Raise (e : exn).
Arguments Ok {A} a.
Arguments Raise {A} e.

(** ** Events *)

(** What a run of the script does to the outside: the Streamlit elements it
    renders and the calls it makes to the provider's client.
    [StTextInput label key pw] is the password box of [check_password]; its
    [on_change] callback is the closure [password_entered], which captured
    [correct_password = pw].  [CallGetPoem d] marks the call [get_poem(d)] of
    line 264.  [ApiCall] is one call of [client.chat.completions.create];
    how many HTTP requests the client makes of it (it resends after some
    failures) is the client's affair and is not counted here. *)
Inductive event : Type :=
  | StPageConfig
  | StWarning (msg : string)
  | StError (msg : string)
  | StInfo (msg : string)
  | StTextInput (label key : string) (captured : string)
  | StStyle
  | StTitle (text : string)
  | StForm (key : string)
  | StSpinner (text : string)
  | StPoem (poem poet : string)
  | CallGetPoem (day_description : string)
  | ApiCall (api_key model system user : string).

(** ** Computations: emitted events and a value or an exception *)

Definition M (A : Type) : Type := (list event * result A)%type.

Definition ret {A} (a : A) : M A := ([], Ok a).
Definition raise {A} (e : exn) : M A := ([], Raise e).
Definition emit (ev : event) : M unit := ([ev], Ok tt).
Definition lift {A} (r : result A) : M A := ([], r).

Definition bind {A B} (m : M A) (k : A → M B) : M B :=
  match m with
  | (l, Ok a) => let (l', r) := k a in (l ++ l', r)
  | (l, Raise e) => (l, Raise e)
  end.

#[global] Instance M_ret : MRet M := @ret.
#[global] Instance M_bind : MBind M := λ A B k m, bind m k.

(** [try: body  except Exception as e: handler e] *)
Definition try_except {A} (body : M A) (handler : exn → M A) : M A :=
  match body with
  | (l, Raise e) =>
      if is_Exception e then let (l', r) := handler e in (l ++ l', r)
      else (l, Raise e)
  | done => done
  end.

Definition events {A} (m : M A) : list event := fst m.
Definition outcome {A} (m : M A) : result A := snd m.

(** ** Python values held in [st.session_state] *)

Inductive pyval : Type :=
  | VBool (b : bool)
  | VStr (s : string).

#[global] Instance pyval_eq_dec : EqDecision pyval.
Proof. solve_decision. Defined.

(** Python truthiness: [bool(v)]. *)
Definition truthy (v : pyval) : bool :=
  match v with
  | VBool b => b
  | VStr s => negb (String.eqb s "")
  end.

(** [bool(s)] for [s : str | None], as in [if not api_key]. *)
Definition truthy_opt (o : option string) : bool :=
  match o with
  | Some s => negb (String.eqb s "")
  | None => false
  end.

(** ** The world outside the script *)

Record Choice : Type := { message_content : option string }.
Record ChatCompletion : Type := { choices : list Choice }.

(** - [environ]: [os.environ] as the run finds it, [load_dotenv()] of
      line 9 done;
    - [secrets]: [st.secrets], [None] when reading the secret store raises
      (no secrets file: [FileNotFoundError] or Streamlit's own error, both
      subclasses of [Exception]); secret values are strings;
    - [randbelow n]: what [random]'s [_randbelow(n)] returns, by its
      contract a uniform draw from [0, n);
    - [provider api_key model system user]: the outcome of
      [client.chat.completions.create]; the provider's SDK types
      [message.content] as [Optional[str]];
    - [format_other t v]: [t.format(poet=v)] for the templates outside the
      fragment that [format_scan] below implements. *)
Record World : Type := {
  environ : gmap string string;
  secrets : option (gmap string string);
  randbelow : nat → nat;
  provider : string → string → string → string → result ChatCompletion;
  format_other : string → string → result string
}.

(** ** Configuration lookup *)

(** [os.getenv(key)] *)
Definition getenv (w : World) (key : string) : option string :=
  environ w !! key.

(** [try: if key in st.secrets: v = st.secrets[key]  except: pass],
    with [v] the value held before. *)
Definition secrets_fallback (w : World) (key : string) (v : option string)
  : option string :=
  match secrets w with
  | Some store =>
      match store !! key with
      | Some s => Some s
      | None => v
      end
  | None => v
  end.

(** The value read from the environment, or else from the secret store
    (lines 17-27, 52-58 and 81-88), by a lookup made in the world [w]. *)
Definition lookup_config (w : World) (key : string) : option string :=
  let v := getenv w key in
  if truthy_opt v then v else secrets_fallback w key v.

(** Reading [st.secrets] has an effect of its own: when Streamlit loads the
    secret store it copies every top-level secret into [os.environ], over
    what the environment held.  A store that cannot be read changes
    nothing. *)
Definition read_secrets (w : World) : World :=
  match secrets w with
  | Some store =>
      {| environ := store ∪ environ w; secrets := secrets w;
         randbelow := randbelow w; provider := provider w;
         format_other := format_other w |}
  | None => w
  end.

(** The world a lookup of [key] leaves behind: the secret store is read
    only when the environment gave nothing. *)
Definition after_lookup (w : World) (key : string) : World :=
  if truthy_opt (getenv w key) then w else read_secrets w.

(** ** [str.strip()] *)

(** Python strips the characters for which [str.isspace] holds.  On UTF-8
    text these are the one-byte characters U+0009..U+000D, U+001C..U+001F and
    U+0020, the two-byte U+0085 and U+00A0, and the three-byte U+1680,
    U+2000..U+200A, U+2028, U+2029, U+202F, U+205F and U+3000. *)
Definition code (a : ascii) : nat := nat_of_ascii a.

Definition space1 (a : ascii) : bool :=
  (Nat.leb 9 (code a) && Nat.leb (code a) 13)
  || (Nat.leb 28 (code a) && Nat.leb (code a) 32).

Definition space2 (a b : ascii) : bool :=
  Nat.eqb (code a) 194 && (Nat.eqb (code b) 133 || Nat.eqb (code b) 160).

Definition space3 (a b c : ascii) : bool :=
  (Nat.eqb (code a) 225 && Nat.eqb (code b) 154 && Nat.eqb (code c) 128)
  || (Nat.eqb (code a) 226 && Nat.eqb (code b) 128
      && ((Nat.leb 128 (code c) && Nat.leb (code c) 138)
          || Nat.eqb (code c) 168 || Nat.eqb (code c) 169
          || Nat.eqb (code c) 175))
  || (Nat.eqb (code a) 226 && Nat.eqb (code b) 129 && Nat.eqb (code c) 159)
  || (Nat.eqb (code a) 227 && Nat.eqb (code b) 128 && Nat.eqb (code c) 128).

(** Drop leading whitespace; [sp2] and [sp3] recognise the two- and
    three-byte characters in the order the bytes are met. *)
Fixpoint lstrip_with (sp2 : ascii → ascii → bool)
    (sp3 : ascii → ascii → ascii → bool) (s : string) : string :=
  match s with
  | String a s1 =>
      if space1 a then lstrip_with sp2 sp3 s1
      else
        match s1 with
        | String b s2 =>
            if sp2 a b then lstrip_with sp2 sp3 s2
            else
              match s2 with
              | String c s3 =>
                  if sp3 a b c then lstrip_with sp2 sp3 s3 else s
              | EmptyString => s
              end
        | EmptyString => s
        end
  | EmptyString => EmptyString
  end.

Definition lstrip (s : string) : string := lstrip_with space2 space3 s.

Definition rstrip (s : string) : string :=
  String.rev
    (lstrip_with (λ b a, space2 a b) (λ c b a, space3 a b c) (String.rev s)).

Definition strip (s : string) : string := rstrip (lstrip s).

(** ** [str.format(poet=value)] *)

(** The scanner implements the templates made of literal text, the escapes
    [{{] and [}}], and the replacement field [{poet}]; on these it raises
    what Python raises for a lone brace or a field left open.  It answers
    [None] on any other replacement field (another name, a positional field,
    an attribute), and as soon as a field holds the mark of a conversion, of
    a format spec or of an index, whose parsing has errors of its own; these
    templates [py_format] hands to [format_other]. *)
Inductive scan_state : Type :=
  | Text
  | AfterOpen
  | InField (name : string)
  | AfterClose.

Definition lbrace : ascii := ascii_of_nat 123.
Definition rbrace : ascii := ascii_of_nat 125.

(** [!] opens a conversion, [:] a format spec, [[] an index. *)
Definition field_mark (c : ascii) : bool :=
  Nat.eqb (code c) 33 || Nat.eqb (code c) 58 || Nat.eqb (code c) 91.

Definition out_char (c : ascii) (r : option (result string))
  : option (result string) :=
  match r with
  | Some (Ok s) => Some (Ok (String c s))
  | other => other
  end.

Definition out_string (v : string) (r : option (result string))
  : option (result string) :=
  match r with
  | Some (Ok s) => Some (Ok (v +:+ s))
  | other => other
  end.

Fixpoint format_scan (value : string) (st : scan_state) (t : string)
  : option (result string) :=
  match t with
  | EmptyString =>
      match st with
      | Text => Some (Ok EmptyString)
      | AfterOpen =>
          Some (Raise (Exn ValueError "Single '{' encountered in format string"))
      | InField _ =>
          Some (Raise (Exn ValueError "expected '}' before end of string"))
      | AfterClose =>
          Some (Raise (Exn ValueError "Single '}' encountered in format string"))
      end
  | String c rest =>
      match st with
      | Text =>
          if Ascii.eqb c lbrace then format_scan value AfterOpen rest
          else if Ascii.eqb c rbrace then format_scan value AfterClose rest
          else out_char c (format_scan value Text rest)
      | AfterOpen =>
          if Ascii.eqb c lbrace then out_char lbrace (format_scan value Text rest)
          else if Ascii.eqb c rbrace then None
          else if field_mark c then None
          else format_scan value (InField (String c EmptyString)) rest
      | InField name =>
          if Ascii.eqb c rbrace then
            if String.eqb name "poet"
            then out_string value (format_scan value Text rest)
            else None
          else if Ascii.eqb c lbrace then None
          else if field_mark c then None
          else format_scan value (InField (name +:+ String c EmptyString)) rest
      | AfterClose =>
          if Ascii.eqb c rbrace then out_char rbrace (format_scan value Text rest)
          else Some (Raise (Exn ValueError "Single '}' encountered in format string"))
      end
  end.

(** [template.format(poet=value)] *)
Definition py_format (w : World) (template value : string) : result string :=
  match format_scan value Text template with
  | Some r => r
  | None => format_other w template value
  end.

(** ** Persona selection *)

Definition poets : list string :=
  [ "Emily Dickinson"; "T.S. Eliot"; "Langston Hughes"; "Sylvia Plath";
    "Seamus Heaney"; "Shel Silverstein"; "Lewis Carroll"; "Robert Frost";
    "Ogden Nash"; "Pablo Neruda"; "Dr. Seuss" ].

(** [random.choice(seq)]: [seq[_randbelow(len(seq))]], and an [IndexError]
    on an empty sequence; indexing past the end raises as Python's does. *)
Definition random_choice (rand : nat → nat) (seq : list string)
  : result string :=
  match seq with
  | [] => Raise (Exn IndexError "Cannot choose from an empty sequence")
  | _ =>
      match seq !! rand (length seq) with
      | Some x => Ok x
      | None => Raise (Exn IndexError "list index out of range")
      end
  end.

(** Line 48: [random.choice(poets) if poets else <sentinel>]. *)
Definition select_poet (rand : nat → nat) (ps : list string) : result string :=
  match ps with
  | [] => Ok "Unknown Poet"
  | _ => random_choice rand ps
  end.

(** ** [get_poem] *)

Definition default_template : string :=
  "You are {poet}. Write a short poem based on the user's description of their day.".

Definition model_id : string := "gpt-5.1".

Definition key_missing_msg : string :=
  "OpenAI API Key not found. Please set it in a .env file or Streamlit secrets.".

(** Lines 52-62 in a call of [get_poem] that began in the world [w]: the
    configured template, or the built-in one.  The template is looked up
    after the key (lines 17-27), in the world that lookup left behind. *)
Definition system_prompt_template (w : World) : string :=
  let t := lookup_config (after_lookup w "OPENAI_API_KEY")
             "POEM_SYSTEM_PROMPT" in
  if truthy_opt t then default default_template t else default_template.

(** The system message of line 68, in a call that began in the world [w]. *)
Definition system_instruction (w : World) (poet : string) : result string :=
  py_format w (system_prompt_template w) poet.

(** [client.chat.completions.create(model=..., messages=[system, user])] *)
Definition create (w : World) (api_key system user : string)
  : M ChatCompletion :=
  emit (ApiCall api_key model_id system user) ;;
  lift (provider w api_key model_id system user).

(** [response.choices[0]] *)
Definition first_choice (r : ChatCompletion) : result Choice :=
  match choices r with
  | c :: _ => Ok c
  | [] => Raise (Exn IndexError "list index out of range")
  end.

(** The pair [get_poem] returns: [(poem, poet)], each possibly [None]. *)
Definition poem_pair : Type := (option string * option string)%type.

(** Lines 15-75, for a call that begins in the world [w].  Building the
    client (line 33) sends nothing and is not an event; the arguments of
    [create], the formatted template among them, are evaluated before the
    client is called. *)
Definition get_poem (w : World) (day_description : string) : M poem_pair :=
  let api_key := lookup_config w "OPENAI_API_KEY" in
  if negb (truthy_opt api_key) then
    emit (StError key_missing_msg) ;;
    mret (None, None)
  else
    selected_poet ← lift (select_poet (randbelow w) poets);
    try_except
      (system ← lift (system_instruction w selected_poet);
       response ← create w (default EmptyString api_key) system day_description;
       choice ← lift (first_choice response);
       mret (message_content choice, Some selected_poet))
      (λ e,
        emit (StError ("Error generating poem: " +:+ exn_str e)) ;;
        mret (None, None)).

(** ** The access gate: [check_password] and its callback *)

Definition not_set_msg : string :=
  "App is password protected but APP_PASSWORD is not set.".

Definition incorrect_msg : string := "😕 Password incorrect".

(** [st.text_input(<label>, type=<password>, on_change=password_entered,
    key=<password>)], the callback closing over [correct_password]. *)
Definition password_box (correct_password : string) : M unit :=
  emit (StTextInput "Enter Password" "password" correct_password).

(** Lines 96-102.  Reading a key that is absent raises [KeyError]. *)
Definition password_entered (correct_password : string)
    (ss : gmap string pyval) : result (gmap string pyval) :=
  match ss !! "password" with
  | None => Raise (Exn KeyError "'password'")
  | Some v =>
      if decide (v = VStr correct_password)
      then Ok (delete "password" (<["password_correct" := VBool true]> ss))
      else Ok (<["password_correct" := VBool false]> ss)
  end.

(** Lines 77-119; the session state is read, never written, here. *)
Definition check_password (w : World) (ss : gmap string pyval) : M bool :=
  let correct_password := lookup_config w "APP_PASSWORD" in
  if negb (truthy_opt correct_password) then
    emit (StWarning not_set_msg) ;;
    mret false
  else
    let pw := default EmptyString correct_password in
    match ss !! "password_correct" with
    | None =>
        password_box pw ;;
        mret false
    | Some flag =>
        if negb (truthy flag) then
          password_box pw ;;
          emit (StError incorrect_msg) ;;
          mret false
        else mret true
    end.

(** ** [main] *)

(** What the form of lines 252-259 hands to the run: the text area's
    content and whether the submit button was pressed. *)
Record FormInput : Type := { day_input : string; submitted : bool }.

Definition no_submit : FormInput :=
  {| day_input := EmptyString; submitted := false |}.

(** [st.stop()] *)
Definition st_stop : M unit := raise (Exn StopException EmptyString).

Definition empty_input_msg : string := "Please share a few words first.".

(** Lines 261-293: what [main] does with the form's input.  [StPoem poem
    poet] stands for the reveal of lines 267-290, which ends with the whole
    poem and the attribution line. *)
Definition handle_submit (w : World) (form : FormInput) : M unit :=
  if submitted form then
    if truthy (VStr (strip (day_input form))) then
      emit (StSpinner "Writing...") ;;
      emit (CallGetPoem (day_input form)) ;;
      r ← get_poem w (day_input form);
      match r with
      | (Some poem, Some poet) =>
          if truthy (VStr poem) && truthy (VStr poet)
          then emit (StPoem poem poet)
          else mret tt
      | _ => mret tt
      end
    else emit (StInfo empty_input_msg)
  else mret tt.

(** The world in which a run that began in [w] goes on after
    [check_password], which looked the password up. *)
Definition past_gate (w : World) : World := after_lookup w "APP_PASSWORD".

(** Lines 121-293, for a run that begins in the world [w].  [StStyle]
    stands for the style sheet of lines 133-248. *)
Definition main (w : World) (ss : gmap string pyval) (form : FormInput)
  : M unit :=
  emit StPageConfig ;;
  ok ← check_password w ss;
  (if negb ok then st_stop else mret tt) ;;
  emit StStyle ;;
  emit (StTitle "How was your day today?") ;;
  emit (StForm "day_form") ;;
  handle_submit (past_gate w) form.

(** ** The session across reruns *)

(** A session holds [st.session_state] and the page of the last run.
    Streamlit reruns the script on every interaction; a change of the
    password box first stores the typed text under the box's key and calls
    the [on_change] callback registered by the last run.  The session state
    is followed in the entries the script itself reads and writes, the flag
    and the typed password; the entries Streamlit keeps for its widgets (the
    form's submit button, the box's empty text before anything is typed) are
    not represented. *)
Record Session : Type := {
  session_state : gmap string pyval;
  page : list event
}.

Inductive action : Type :=
  | Load
  | EnterPassword (typed : string)
  | Reflect (text : string).

(** The [correct_password] captured by the callback of the password box on
    the page, if the page shows the box. *)
Fixpoint on_change (pg : list event) : option string :=
  match pg with
  | [] => None
  | StTextInput _ key pw :: rest =>
      if String.eqb key "password" then Some pw else on_change rest
  | _ :: rest => on_change rest
  end.

Definition shows_form (pg : list event) : bool :=
  existsb (λ ev, match ev with StForm _ => true | _ => false end) pg.

Definition rerun (w : World) (ss : gmap string pyval) (form : FormInput)
  : Session :=
  {| session_state := ss; page := events (main w ss form) |}.

(** One interaction; [None] when the page does not offer it.  The callback
    finds the typed text under its key, so it cannot raise (see
    [password_entered_typed]); after an exception in a callback the script
    would rerun on the state as it was. *)
Definition step (w : World) (a : action) (σ : Session) : option Session :=
  match a with
  | Load => Some (rerun w (session_state σ) no_submit)
  | EnterPassword typed =>
      match on_change (page σ) with
      | Some pw =>
          match password_entered pw
                  (<["password" := VStr typed]> (session_state σ)) with
          | Ok ss' => Some (rerun w ss' no_submit)
          | Raise _ => Some (rerun w (session_state σ) no_submit)
          end
      | None => None
      end
  | Reflect text =>
      if shows_form (page σ)
      then Some (rerun w (session_state σ)
                   {| day_input := text; submitted := true |})
      else None
  end.

(** A sequence of interactions, each in the world of its moment. *)
Fixpoint run (trace : list (World * action)) (σ : Session) : option Session :=
  match trace with
  | [] => Some σ
  | (w, a) :: rest =>
      match step w a σ with
      | Some σ' => run rest σ'
      | None => None
      end
  end.

(** ** The gate's states *)

Inductive AccessState : Type :=
  | Locked (incorrect : bool)
  | Unlocked
  | Misconfigured.

Definition has_warning (l : list event) : bool :=
  existsb (λ ev, match ev with StWarning _ => true | _ => false end) l.

Definition has_error (l : list event) : bool :=
  existsb (λ ev, match ev with StError _ => true | _ => false end) l.

(** The state a run of [check_password] shows: unlocked when it returns
    [True]; otherwise misconfigured when it warned, and locked, with the
    incorrect flag when it rendered the error. *)
Definition gate (w : World) (ss : gmap string pyval) : AccessState :=
  let m := check_password w ss in
  match outcome m with
  | Ok true => Unlocked
  | _ =>
      if has_warning (events m) then Misconfigured
      else Locked (has_error (events m))
  end.

(** [Session.authenticated]: the flag [password_correct] of the session
    state, read as [check_password] reads it. *)
Definition authenticated (ss : gmap string pyval) : bool :=
  match ss !! "password_correct" with
  | Some flag => truthy flag
  | None => false
  end.

(** The password is configured: [APP_PASSWORD] resolves to a non-empty
    string. *)
Definition configured (w : World) : bool :=
  truthy_opt (lookup_config w "APP_PASSWORD").

(** The events that belong to generation. *)
Definition generation_event (ev : event) : bool :=
  match ev with
  | CallGetPoem _ | ApiCall _ _ _ _ | StPoem _ _ | StSpinner _ => true
  | _ => false
  end.

(** ** The reveal of the poem *)

(** Lines 267-290 write to one placeholder: after each character of the poem
    the text so far, its line breaks turned into [<br>], and at the end the
    whole poem with the attribution.  [reveal] lists what the placeholder
    holds, in order; the pause between two frames is not modelled. *)

Definition newline : ascii := ascii_of_nat 10.

(** A byte [10xxxxxx] continues the UTF-8 character begun before it. *)
Definition is_continuation (a : ascii) : bool :=
  Nat.leb 128 (code a) && Nat.leb (code a) 191.

(** The characters [for char in poem] walks through: each leading byte with
    the continuation bytes that follow it. *)
Fixpoint utf8_chars (s : string) : list string :=
  match s with
  | EmptyString => []
  | String a rest =>
      match rest with
      | String b _ =>
          if is_continuation b then
            match utf8_chars rest with
            | c :: cs => String a c :: cs
            | [] => [String a EmptyString]
            end
          else String a EmptyString :: utf8_chars rest
      | EmptyString => [String a EmptyString]
      end
  end.

(** [text.replace(<newline>, <br>)] *)
Fixpoint replace_newlines (s : string) : string :=
  match s with
  | EmptyString => EmptyString
  | String a rest =>
      if Ascii.eqb a newline then "<br>" +:+ replace_newlines rest
      else String a (replace_newlines rest)
  end.

(** The values [full_text] takes in the loop, starting from [acc]. *)
Fixpoint full_texts (acc : string) (chars : list string) : list string :=
  match chars with
  | [] => []
  | c :: rest => (acc +:+ c) :: full_texts (acc +:+ c) rest
  end.

(** The values of [current_html], one per turn of the loop. *)
Definition current_htmls (poem : string) : list string :=
  replace_newlines <$> full_texts EmptyString (utf8_chars poem).





(** * Vocabulary of the statements *)

(** ** Outcomes *)

(** How a run ends at [st.stop()]. *)
Definition stopped : result unit := Raise (Exn StopException EmptyString).

(** The error of line 74. *)
Definition generation_error (e : exn) : event :=
  StError ("Error generating poem: " +:+ exn_str e).

(** What the handler of lines 73-75 makes of an exception raised in the
    [try] block after the events [l]. *)
Definition handled (l : list event) (e : exn) : M poem_pair :=
  if is_Exception e then (l ++ [generation_error e], Ok (None, None))
  else (l, Raise e).

(** The strings a returned pair holds. *)
Definition carried (pair : poem_pair) : list string :=
  match pair with
  | (poem, poet) => option_list poem ++ option_list poet
  end.

(** The value [get_poem] returns carries a non-empty text. *)
Definition returns_failure_description (w : World) (d : string) : Prop :=
  ∃ pair text,
    outcome (get_poem w d) = Ok pair ∧ text ∈ carried pair
    ∧ text ≠ EmptyString.

(** The pair holds both components or neither. *)
Definition all_or_nothing (pair : poem_pair) : Prop :=
  match pair with
  | (Some _, Some _) | (None, None) => True
  | _ => False
  end.

(** ** Sessions *)

(** Once the flag is true the page never shows the box again, and no
    interaction changes the flag. *)
Definition unlocked_session (σ : Session) : Prop :=
  authenticated (session_state σ) = true ∧ on_change (page σ) = None.

(** The interactions an unlocked page offers: reloading, and submitting the
    form whenever the last run rendered it. *)
Definition offered_when_unlocked (x : World * action) : Prop :=
  configured x.1 = true ∧ ∀ typed, x.2 ≠ EnterPassword typed.

(** The typed string is held by the session state [ss]. *)
Definition retained (typed : string) (ss : gmap string pyval) : Prop :=
  ∃ key, ss !! key = Some (VStr typed).

(** ** Texts *)

(** Only one-byte whitespace: spaces, tabs, line breaks. *)
Fixpoint blank (s : string) : bool :=
  match s with
  | EmptyString => true
  | String a rest => space1 a && blank rest
  end.

(** ** Templates *)

Fixpoint brace_free (s : string) : bool :=
  match s with
  | EmptyString => true
  | String c rest =>
      negb (Ascii.eqb c lbrace) && negb (Ascii.eqb c rbrace) && brace_free rest
  end.

(** [sep.join(segs)] *)
Fixpoint join (sep : string) (segs : list string) : string :=
  match segs with
  | [] => EmptyString
  | [s] => s
  | s :: rest => s +:+ sep +:+ join sep rest
  end.

(** The template that is configured when [get_poem], begun in [w], looks
    it up: after the lookup of the key. *)
Definition configured_template (w : World) : option string :=
  lookup_config (after_lookup w "OPENAI_API_KEY") "POEM_SYSTEM_PROMPT".

(** ** Worlds *)

(** The same world with another secret store. *)
Definition with_secrets (w : World) (s : option (gmap string string)) : World :=
  {| environ := environ w; secrets := s; randbelow := randbelow w;
     provider := provider w; format_other := format_other w |}.

(** A password and a key in the environment, no secret store, the draw 7
    (Robert Frost), and a provider that answers with one choice. *)
Definition world_ok : World :=
  {| environ := {[ "APP_PASSWORD" := "tea"; "OPENAI_API_KEY" := "sk-1" ]};
     secrets := None;
     randbelow := λ _, 7;
     provider := λ _ _ _ _,
       Ok {| choices := [ {| message_content := Some "Rain taps soft" |} ] |};
     format_other := λ _ _, Ok EmptyString |}.

(** [APP_PASSWORD] set to the empty string and no secret store. *)
Definition world_without_password : World :=
  {| environ := {[ "APP_PASSWORD" := EmptyString ]};
     secrets := None;
     randbelow := λ _, 0;
     provider := λ _ _ _ _, Ok {| choices := [] |};
     format_other := λ _ _, Ok EmptyString |}.

(** No [OPENAI_API_KEY] anywhere. *)
Definition world_without_key : World :=
  {| environ := {[ "APP_PASSWORD" := "tea" ]};
     secrets := None;
     randbelow := λ _, 0;
     provider := λ _ _ _ _, Ok {| choices := [] |};
     format_other := λ _ _, Ok EmptyString |}.

(** The key in the secret store only, one template in the environment
    and another in the store. *)
Definition world_two_templates : World :=
  {| environ := {[ "APP_PASSWORD" := "tea";
                   "POEM_SYSTEM_PROMPT" := "A {poet}" ]};
     secrets := Some {[ "OPENAI_API_KEY" := "sk-2";
                        "POEM_SYSTEM_PROMPT" := "B {poet}" ]};
     randbelow := λ _, 7;
     provider := λ _ _ _ _,
       Ok {| choices := [ {| message_content := Some "Rain taps soft" |} ] |};
     format_other := λ _ _, Ok EmptyString |}.

(** The password in the secret store only; a key and a template in the
    environment, and others in the store. *)
Definition world_store_first : World :=
  {| environ := {[ "OPENAI_API_KEY" := "sk-env";
                   "POEM_SYSTEM_PROMPT" := "A {poet}" ]};
     secrets := Some {[ "APP_PASSWORD" := "tea";
                        "OPENAI_API_KEY" := "sk-store";
                        "POEM_SYSTEM_PROMPT" := "B {poet}" ]};
     randbelow := λ _, 7;
     provider := λ _ _ _ _,
       Ok {| choices := [ {| message_content := Some "Rain taps soft" |} ] |};
     format_other := λ _ _, Ok EmptyString |}.

(** The template of the example, and the draw 10 (Dr. Seuss). *)
Definition world_critic : World :=
  {| environ := {[ "APP_PASSWORD" := "tea"; "OPENAI_API_KEY" := "sk-1";
                   "POEM_SYSTEM_PROMPT" := "You are {poet}, a grumpy critic." ]};
     secrets := None;
     randbelow := λ _, 10;
     provider := λ _ _ _ _,
       Ok {| choices := [ {| message_content := Some "Rain taps soft" |} ] |};
     format_other := λ _ _, Ok EmptyString |}.

(** A provider whose call raises. *)
Definition world_down : World :=
  {| environ := {[ "APP_PASSWORD" := "tea"; "OPENAI_API_KEY" := "sk-1" ]};
     secrets := None;
     randbelow := λ _, 7;
     provider := λ _ _ _ _, Raise (Exn ProviderError "Connection error.");
     format_other := λ _ _, Ok EmptyString |}.

(** A provider that answers with a message without content. *)
Definition world_silent : World :=
  {| environ := {[ "APP_PASSWORD" := "tea"; "OPENAI_API_KEY" := "sk-1" ]};
     secrets := None;
     randbelow := λ _, 7;
     provider := λ _ _ _ _,
       Ok {| choices := [ {| message_content := None |} ] |};
     format_other := λ _ _, Ok EmptyString |}.

(** ** Counting and visible text *)

(** The requests among the events. *)
Fixpoint requests (l : list event) : nat :=
  match l with
  | [] => 0
  | ApiCall _ _ _ _ :: rest => S (requests rest)
  | _ :: rest => requests rest
  end.

(** An ASCII character that is not whitespace. *)
Definition solid (a : ascii) : bool :=
  Nat.ltb (code a) 128 && negb (space1 a).

(** The text holds such a character. *)
Fixpoint has_solid (s : string) : bool :=
  match s with
  | EmptyString => false
  | String a rest => solid a || has_solid rest
  end.

(** The text holds a line break. *)
Fixpoint has_newline (s : string) : bool :=
  match s with
  | EmptyString => false
  | String a rest => Ascii.eqb a newline || has_newline rest
  end.

(** ** Traces in one world *)

(** The interactions of [trace], all in the world [w].  A run that stops at
    the gate leaves a world in which the password is found as before
    ([lookup_config_after_lookup]), so one world serves a locked session. *)
Definition in_world (w : World) (trace : list action) : list (World * action) :=
  pair w <$> trace.

(** The action does not type the configured password of [w]. *)
Definition not_the_password (w : World) (a : action) : Prop :=
  ∀ typed, a = EnterPassword typed →
    lookup_config w "APP_PASSWORD" ≠ Some typed.

(** A session that a run of [main] in [w] left locked. *)
Definition locked_session (w : World) (σ : Session) : Prop :=
  ∃ form, σ = rerun w (session_state σ) form
          ∧ authenticated (session_state σ) = false.

(** ** Outcomes of a submission *)

(** What lines 266-290 render for what [get_poem] gave. *)
Definition rendering (r : result poem_pair) : list event :=
  match r with
  | Ok (Some poem, Some poet) =>
      if truthy (VStr poem) && truthy (VStr poet)
      then [StPoem poem poet] else []
  | _ => []
  end.

(** The run goes on after a value and ends with an exception. *)
Definition finished {A} (r : result A) : result unit :=
  match r with
  | Ok _ => Ok tt
  | Raise e => Raise e
  end.

(** The outside behaves as its libraries promise: the draw is below its
    bound, and the provider's client and [str.format] raise subclasses of
    [Exception] only. *)
Definition well_behaved (w : World) : Prop :=
  (randbelow w (length poets) < length poets)%nat
  ∧ (∀ key model system user e,
       provider w key model system user = Raise e → is_Exception e = true)
  ∧ (∀ t v e, format_other w t v = Raise e → is_Exception e = true).

(** The strings of [l], one after the other. *)
Definition concat_strings (l : list string) : string :=
  foldr String.append EmptyString l.

(** ** More worlds *)

(** The password of [world_ok] changed; the provider answers without a
    choice. *)
Definition world_new_password : World :=
  {| environ := {[ "APP_PASSWORD" := "chai"; "OPENAI_API_KEY" := "sk-1" ]};
     secrets := None;
     randbelow := λ _, 7;
     provider := λ _ _ _ _, Ok {| choices := [] |};
     format_other := λ _ _, Ok EmptyString |}.

(** A template whose field is left open. *)
Definition world_open_brace : World :=
  {| environ := {[ "APP_PASSWORD" := "tea"; "OPENAI_API_KEY" := "sk-1";
                   "POEM_SYSTEM_PROMPT" := "Write as {poet" ]};
     secrets := None;
     randbelow := λ _, 7;
     provider := λ _ _ _ _,
       Ok {| choices := [ {| message_content := Some "Rain taps soft" |} ] |};
     format_other := λ _ _, Ok EmptyString |}.

(** * Properties *)

#[global] Arguments select_poet : simpl never.
#[global] Arguments system_instruction : simpl never.
#[global] Arguments lookup_config : simpl never.
#[global] Arguments strip : simpl never.
#[global] Arguments String.eqb : simpl never.

(** ** Configuration lookup *)

Lemma truthy_opt_false (o : option string) :
  truthy_opt o = false ↔ o = None ∨ o = Some EmptyString.
Proof.
  destruct o as [s|]; simpl.
  - rewrite negb_false_iff, String.eqb_eq. split.
    + intros ->. by right.
    + intros [?|[= ->]]; done.
  - split; [by left | done].
Qed.

Lemma truthy_opt_true (o : option string) :
  truthy_opt o = true ↔ ∃ s, o = Some s ∧ s ≠ EmptyString.
Proof.
  destruct o as [s|]; simpl.
  - rewrite negb_true_iff, String.eqb_neq. split.
    + intros ?. by exists s.
    + by intros (? & [= <-] & ?).
  - split; [done | by intros (? & ? & ?)].
Qed.

Lemma lookup_config_env_first (w : World) (key : string) :
  truthy_opt (getenv w key) = true → lookup_config w key = getenv w key.
Proof. unfold lookup_config. by intros ->. Qed.

Lemma lookup_config_secret_second (w : World) (key v : string)
    (store : gmap string string) :
  truthy_opt (getenv w key) = false →
  secrets w = Some store → store !! key = Some v →
  lookup_config w key = Some v.
Proof.
  unfold lookup_config, secrets_fallback. by intros -> -> ->.
Qed.

Lemma lookup_config_store_failure (w : World) (key : string)
    (store : gmap string string) :
  store !! key = None →
  lookup_config (with_secrets w None) key
  = lookup_config (with_secrets w (Some store)) key.
Proof.
  intros Hk. unfold lookup_config, secrets_fallback, getenv. simpl.
  by rewrite Hk.
Qed.

(** A value is missing exactly when the environment has none and the secret
    store cannot be read, lacks it, or holds the empty string. *)
Lemma lookup_config_missing (w : World) (key : string) :
  truthy_opt (lookup_config w key) = false
  ↔ truthy_opt (getenv w key) = false
    ∧ (secrets w = None
       ∨ ∃ store, secrets w = Some store
                  ∧ truthy_opt (store !! key) = false).
Proof.
  unfold lookup_config, secrets_fallback.
  destruct (truthy_opt (getenv w key)) eqn:Henv.
  - rewrite Henv. split; [done|by intros [? _]].
  - destruct (secrets w) as [store|].
    + destruct (store !! key) as [v|] eqn:Hv.
      * split.
        -- intros Hf. split; [done|]. right. exists store. by rewrite Hv.
        -- intros [_ [?|(store' & [= <-] & Hf)]]; [done|]. by rewrite Hv in Hf.
      * split; [|done]. intros _. split; [done|]. right.
        exists store. by rewrite Hv.
    + split; [|done]. intros _. split; [done|by left].
Qed.

(** ** The gate when no password is configured *)

Lemma check_password_not_configured (w : World) (ss : gmap string pyval) :
  configured w = false →
  check_password w ss = ([StWarning not_set_msg], Ok false).
Proof. unfold configured, check_password. by intros ->. Qed.

(** C3.  When [APP_PASSWORD] resolves to nothing or to the empty string,
    [check_password] warns and returns [False] in every session state, so the
    gate is [Misconfigured] whatever the session holds (a typed password, a
    flag recorded earlier) and after whatever interaction led to the run. *)
Theorem missing_password_is_misconfigured (w : World)
    (ss : gmap string pyval)
    (Hpw : lookup_config w "APP_PASSWORD" = None
           ∨ lookup_config w "APP_PASSWORD" = Some EmptyString) :
  check_password w ss = ([StWarning not_set_msg], Ok false)
  ∧ gate w ss = Misconfigured
  ∧ (∀ typed flag,
        gate w (<["password" := VStr typed]> (<["password_correct" := flag]> ss))
        = Misconfigured)
  ∧ (∀ a σ σ', step w a σ = Some σ' →
        gate w (session_state σ') = Misconfigured
        ∧ on_change (page σ') = None ∧ shows_form (page σ') = false).
Proof.
  apply truthy_opt_false in Hpw.
  assert (Hall : ∀ s, check_password w s = ([StWarning not_set_msg], Ok false))
    by (intros s; by apply check_password_not_configured).
  assert (Hgate : ∀ s, gate w s = Misconfigured)
    by (intros s; unfold gate; by rewrite Hall).
  assert (Hmain : ∀ s f, events (main w s f) = [StPageConfig; StWarning not_set_msg])
    by (intros s f; unfold main; by rewrite Hall).
  split; [done|]. split; [done|]. split; [done|].
  intros a σ σ' Hstep.
  assert (Hσ : ∃ s f, σ' = rerun w s f).
  { destruct a; simpl in Hstep;
      repeat match type of Hstep with
             | context [match ?x with _ => _ end] => destruct x; try done
             end;
      injection Hstep as <-; eauto. }
  destruct Hσ as (s & f & ->). simpl. by rewrite Hgate, Hmain.
Qed.

Lemma missing_password_is_misconfigured_witness :
  gate world_without_password {[ "password_correct" := VBool true ]}
  = Misconfigured.
Proof.
  apply (missing_password_is_misconfigured world_without_password
           {[ "password_correct" := VBool true ]}).
  right. reflexivity.
Defined.

(** ** API-key resolution *)

Lemma get_poem_without_key (w : World) (day_description : string) :
  truthy_opt (lookup_config w "OPENAI_API_KEY") = false →
  get_poem w day_description = ([StError key_missing_msg], Ok (None, None)).
Proof. unfold get_poem. by intros ->. Qed.

(** C8.  The key is read from the environment first and from the secret
    store second; a secret store that cannot be read gives what a store
    without the key gives; and when no key is found [get_poem] renders one
    error and returns [(None, None)]: it sends no request and raises
    nothing. *)
Theorem api_key_resolution (w : World) (day_description : string) :
  (truthy_opt (getenv w "OPENAI_API_KEY") = true →
     ∀ s, lookup_config (with_secrets w s) "OPENAI_API_KEY"
          = getenv w "OPENAI_API_KEY")
  ∧ (truthy_opt (getenv w "OPENAI_API_KEY") = false →
     ∀ store v, store !! "OPENAI_API_KEY" = Some v →
       lookup_config (with_secrets w (Some store)) "OPENAI_API_KEY" = Some v)
  ∧ (∀ store, store !! "OPENAI_API_KEY" = None →
       lookup_config (with_secrets w None) "OPENAI_API_KEY"
       = lookup_config (with_secrets w (Some store)) "OPENAI_API_KEY")
  ∧ (truthy_opt (getenv w "OPENAI_API_KEY") = false →
     ∀ store, store !! "OPENAI_API_KEY" = None →
       get_poem (with_secrets w None) day_description
       = ([StError key_missing_msg], Ok (None, None))
       ∧ get_poem (with_secrets w (Some store)) day_description
         = ([StError key_missing_msg], Ok (None, None)))
  ∧ (truthy_opt (lookup_config w "OPENAI_API_KEY") = false →
       get_poem w day_description
       = ([StError key_missing_msg], Ok (None, None))).
Proof.
  assert (Hsame : ∀ store, store !! "OPENAI_API_KEY" = None →
    lookup_config (with_secrets w None) "OPENAI_API_KEY"
    = lookup_config (with_secrets w (Some store)) "OPENAI_API_KEY")
    by (intros; by apply lookup_config_store_failure).
  split; [|split; [|split; [|split]]].
  - intros Henv s. by apply (lookup_config_env_first (with_secrets w s)).
  - intros Henv store v Hv.
    by apply (lookup_config_secret_second (with_secrets w (Some store))
                _ _ store).
  - done.
  - intros Henv store Hk.
    assert (Hnone : truthy_opt
              (lookup_config (with_secrets w None) "OPENAI_API_KEY") = false).
    { unfold lookup_config, getenv in *. simpl. by rewrite Henv. }
    split; apply get_poem_without_key; [done|]. by rewrite <- Hsame.
  - apply get_poem_without_key.
Qed.

Lemma api_key_resolution_witness :
  get_poem world_without_key "It rained all day and I stayed in."
  = ([StError key_missing_msg], Ok (None, None)).
Proof.
  apply (api_key_resolution world_without_key
           "It rained all day and I stayed in.").
  reflexivity.
Defined.

(** ** [get_poem], case by case *)

Lemma get_poem_unfold (w : World) (d : string) :
  get_poem w d
  = match lookup_config w "OPENAI_API_KEY" with
    | None => ([StError key_missing_msg], Ok (None, None))
    | Some key =>
        if String.eqb key EmptyString
        then ([StError key_missing_msg], Ok (None, None))
        else
          match select_poet (randbelow w) poets with
          | Raise e => ([], Raise e)
          | Ok poet =>
              match system_instruction w poet with
              | Raise e => handled [] e
              | Ok system =>
                  let call := ApiCall key model_id system d in
                  match provider w key model_id system d with
                  | Raise e => handled [call] e
                  | Ok response =>
                      match choices response with
                      | [] =>
                          handled [call]
                            (Exn IndexError "list index out of range")
                      | c :: _ =>
                          ([call], Ok (message_content c, Some poet))
                      end
                  end
              end
          end
    end.
Proof.
  unfold get_poem, handled, generation_error.
  destruct (lookup_config w "OPENAI_API_KEY") as [key|]; [|done]. simpl.
  destruct (String.eqb key EmptyString); [done|]. simpl.
  destruct (select_poet _ _) as [poet|e]; [|done]. simpl.
  destruct (system_instruction w poet) as [system|e]; simpl.
  - unfold create. simpl.
    destruct (provider w key model_id system d) as [response|e]; simpl.
    + unfold first_choice. destruct (choices response); done.
    + by destruct (is_Exception e).
  - by destruct (is_Exception e).
Qed.

(** Membership in a list written out: one goal per element. *)
Ltac elem_cases H :=
  repeat first
    [ apply elem_of_nil in H; destruct H
    | apply elem_of_cons in H as [H|H]; [simplify_eq|]
    | apply elem_of_app in H as [H|H] ].

Lemma get_poem_events (w : World) (d : string) (ev : event) :
  ev ∈ events (get_poem w d) →
  (∃ msg, ev = StError msg) ∨ (∃ key system, ev = ApiCall key model_id system d).
Proof.
  rewrite get_poem_unfold. unfold handled, events.
  repeat match goal with
         | |- context [match ?x with _ => _ end] => destruct x
         end; simpl; intros Hev; elem_cases Hev; eauto.
Qed.

(** ** [check_password] and [main], case by case *)

Lemma check_password_unfold (w : World) (ss : gmap string pyval) :
  check_password w ss
  = if negb (configured w) then ([StWarning not_set_msg], Ok false)
    else
      let box := StTextInput "Enter Password" "password"
                   (default EmptyString (lookup_config w "APP_PASSWORD")) in
      match ss !! "password_correct" with
      | None => ([box], Ok false)
      | Some flag =>
          if truthy flag then ([], Ok true)
          else ([box; StError incorrect_msg], Ok false)
      end.
Proof.
  unfold check_password, configured.
  destruct (truthy_opt _); [|done]. simpl.
  destruct (ss !! "password_correct") as [flag|]; [|done].
  by destruct (truthy flag).
Qed.

Lemma check_password_returns (w : World) (ss : gmap string pyval) :
  outcome (check_password w ss) = Ok (configured w && authenticated ss).
Proof.
  rewrite check_password_unfold. unfold authenticated.
  destruct (configured w); [|done]. simpl.
  destruct (ss !! "password_correct") as [flag|]; [|done].
  by destruct (truthy flag).
Qed.

Lemma main_unfold (w : World) (ss : gmap string pyval) (form : FormInput) :
  main w ss form
  = if configured w && authenticated ss
    then ([StPageConfig; StStyle; StTitle "How was your day today?";
           StForm "day_form"] ++ events (handle_submit (past_gate w) form),
          outcome (handle_submit (past_gate w) form))
    else (StPageConfig :: events (check_password w ss), stopped).
Proof.
  unfold main. rewrite check_password_unfold. unfold authenticated.
  destruct (configured w); [|done]. simpl.
  destruct (ss !! "password_correct") as [flag|]; [|done].
  destruct (truthy flag); [|done]. simpl.
  by destruct (handle_submit (past_gate w) form).
Qed.

Lemma handle_submit_events (w : World) (form : FormInput) (ev : event) :
  ev ∈ events (handle_submit w form) →
  generation_event ev = true
  ∨ (∃ msg, ev = StError msg) ∨ ev = StInfo empty_input_msg.
Proof.
  unfold handle_submit.
  destruct (submitted form); [|by rewrite elem_of_nil].
  destruct (truthy _); [|simpl; rewrite list_elem_of_singleton; auto].
  pose proof (get_poem_events w (day_input form)) as Hg.
  destruct (get_poem w (day_input form)) as [l [[[poem|] [poet|]]|e]];
    simpl in *; try destruct (_ && _); simpl;
    intros Hev; elem_cases Hev; auto;
    destruct (Hg _ Hev) as [[? ->]|(? & ? & ->)]; eauto.
Qed.

Lemma handle_submit_blank (w : World) (form : FormInput) :
  strip (day_input form) = EmptyString →
  handle_submit w form
  = if submitted form then ([StInfo empty_input_msg], Ok tt) else ([], Ok tt).
Proof. unfold handle_submit. by intros ->. Qed.

Lemma handle_submit_generates (w : World) (form : FormInput) (ev : event) :
  ev ∈ events (handle_submit w form) → generation_event ev = true →
  submitted form = true ∧ strip (day_input form) ≠ EmptyString.
Proof.
  destruct (decide (strip (day_input form) = EmptyString)) as [Hblank|Hfull].
  - rewrite (handle_submit_blank _ _ Hblank).
    destruct (submitted form); simpl; intros Hev; by elem_cases Hev.
  - unfold handle_submit. destruct (submitted form); [done|].
    simpl. intros Hev. by elem_cases Hev.
Qed.

Lemma handle_submit_request (w : World) (form : FormInput) (ev : event) :
  ev ∈ events (handle_submit w form) →
  match ev with
  | CallGetPoem d => d = day_input form
  | ApiCall _ model _ user => model = model_id ∧ user = day_input form
  | _ => True
  end.
Proof.
  unfold handle_submit.
  destruct (submitted form); [|intros Hev; by elem_cases Hev].
  destruct (truthy _); [|intros Hev; by elem_cases Hev].
  pose proof (get_poem_events w (day_input form)) as Hg.
  destruct (get_poem w (day_input form)) as [l [[[poem|] [poet|]]|e]];
    simpl in *; try destruct (_ && _); simpl;
    intros Hev; elem_cases Hev; auto;
    destruct (Hg _ Hev) as [[? ->]|(? & ? & ->)]; eauto.
Qed.

Lemma main_events (w : World) (ss : gmap string pyval) (form : FormInput)
    (ev : event) :
  ev ∈ events (main w ss form) → generation_event ev = true →
  configured w && authenticated ss = true
  ∧ ev ∈ events (handle_submit (past_gate w) form).
Proof.
  rewrite main_unfold.
  destruct (configured w && authenticated ss); simpl.
  - intros Hev Hgen. split; [done|].
    by repeat (apply elem_of_cons in Hev as [->|Hev]; [done|]).
  - rewrite check_password_unfold.
    repeat match goal with
           | |- context [match ?x with _ => _ end] => destruct x
           end; simpl; intros Hev; by elem_cases Hev.
Qed.

(** ** Generation behind the gate *)

(** C4.  Every event of generation in a run of [main] (the spinner, the call
    of [get_poem], the request to the provider, the rendered poem) occurs in
    a session whose [password_correct] flag is true; and when
    [check_password] returns [False] the run ends at [st.stop()], having
    rendered only what [check_password] rendered: no form, no generation. *)
Theorem generation_requires_authentication (w : World)
    (ss : gmap string pyval) (form : FormInput) :
  (∀ ev, ev ∈ events (main w ss form) → generation_event ev = true →
     authenticated ss = true ∧ outcome (check_password w ss) = Ok true)
  ∧ (outcome (check_password w ss) = Ok false →
     main w ss form = (StPageConfig :: events (check_password w ss), stopped)
     ∧ shows_form (events (main w ss form)) = false
     ∧ ∀ ev, ev ∈ events (main w ss form) → generation_event ev = false).
Proof.
  split.
  - intros ev Hev Hgen.
    destruct (main_events _ _ _ _ Hev Hgen) as [Hok _].
    rewrite check_password_returns, Hok.
    by apply andb_true_iff in Hok as [_ ->].
  - rewrite check_password_returns. intros [= Hno].
    assert (Hmain : main w ss form
              = (StPageConfig :: events (check_password w ss), stopped))
      by (by rewrite main_unfold, Hno).
    split; [done|]. rewrite Hmain, check_password_unfold. simpl.
    split.
    + repeat match goal with
             | |- context [match ?x with _ => _ end] => destruct x
             end; done.
    + intros ev.
      repeat match goal with
             | |- context [match ?x with _ => _ end] => destruct x
             end; simpl; intros Hev; by elem_cases Hev.
Qed.

Lemma generation_requires_authentication_witness :
  (authenticated {[ "password_correct" := VBool true ]} = true
   ∧ outcome (check_password world_ok {[ "password_correct" := VBool true ]})
     = Ok true)
  ∧ main world_ok ∅ {| day_input := "It rained."; submitted := true |}
    = ([StPageConfig; StTextInput "Enter Password" "password" "tea"], stopped).
Proof.
  split.
  - apply (generation_requires_authentication world_ok
             {[ "password_correct" := VBool true ]}
             {| day_input := "It rained."; submitted := true |})
      with (ev := CallGetPoem "It rained.").
    + vm_compute. do 5 apply list_elem_of_further. apply list_elem_of_here.
    + reflexivity.
  - destruct (generation_requires_authentication world_ok ∅
                {| day_input := "It rained."; submitted := true |})
      as [_ Hstop].
    destruct (Hstop eq_refl) as [Hmain _]. exact Hmain.
Defined.

(** ** Whitespace *)

(** A text made of one-byte whitespace (spaces, tabs, line breaks) is empty
    after [strip()]. *)
Lemma strip_blank (s : string) : blank s = true → strip s = EmptyString.
Proof.
  intros Hblank. unfold strip, lstrip.
  assert (lstrip_with space2 space3 s = EmptyString) as ->; [|done].
  induction s as [|a s IH]; [done|].
  simpl in Hblank. apply andb_true_iff in Hblank as [Ha Hs].
  simpl. rewrite Ha. by apply IH.
Qed.

(** ** The caller's guard on empty input *)

(** C5.  When the text is empty after [strip()], no run of [main] reaches
    generation, and a submitted form past the gate renders the form and the
    informational message and nothing else; conversely [get_poem] is called,
    and a request sent, only on a submitted text that is non-empty after
    [strip()], and with that very text. *)
Theorem blank_input_is_not_generated (w : World) (ss : gmap string pyval)
    (form : FormInput) :
  (strip (day_input form) = EmptyString →
     (∀ ev, ev ∈ events (main w ss form) → generation_event ev = false)
     ∧ (submitted form = true → outcome (check_password w ss) = Ok true →
        main w ss form
        = ([StPageConfig; StStyle; StTitle "How was your day today?";
            StForm "day_form"; StInfo empty_input_msg], Ok tt)))
  ∧ (∀ ev, ev ∈ events (main w ss form) → generation_event ev = true →
       submitted form = true ∧ strip (day_input form) ≠ EmptyString
       ∧ match ev with
         | CallGetPoem d => d = day_input form
         | ApiCall _ _ _ user => user = day_input form
         | _ => True
         end)
  ∧ (strip (day_input form) ≠ EmptyString → submitted form = true →
     outcome (check_password w ss) = Ok true →
     CallGetPoem (day_input form) ∈ events (main w ss form)).
Proof.
  assert (Hgen : ∀ ev, ev ∈ events (main w ss form) →
            generation_event ev = true →
            submitted form = true ∧ strip (day_input form) ≠ EmptyString
            ∧ match ev with
              | CallGetPoem d => d = day_input form
              | ApiCall _ _ _ user => user = day_input form
              | _ => True
              end).
  { intros ev Hev Hg. destruct (main_events _ _ _ _ Hev Hg) as [_ Hin].
    destruct (handle_submit_generates _ _ _ Hin Hg) as [Hsub Hfull].
    split; [done|]. split; [done|].
    pose proof (handle_submit_request _ _ _ Hin) as Hreq.
    destruct ev; tauto. }
  split; [|split; [done|]].
  - intros Hblank. split.
    + intros ev Hev. destruct (generation_event ev) eqn:Hg; [|done].
      by destruct (Hgen ev Hev Hg) as (_ & ? & _).
    + intros Hsub. rewrite check_password_returns. intros [= Hok].
      by rewrite main_unfold, Hok, handle_submit_blank, Hsub.
  - intros Hfull Hsub. rewrite check_password_returns. intros [= Hok].
    rewrite main_unfold, Hok. unfold handle_submit. rewrite Hsub. simpl.
    apply String.eqb_neq in Hfull. rewrite Hfull. simpl.
    destruct (get_poem (past_gate w) (day_input form))
      as [l [[[poem|] [poet|]]|e]];
      simpl;
      try destruct (negb (String.eqb poem EmptyString)
                    && negb (String.eqb poet EmptyString)); simpl;
      do 5 apply list_elem_of_further; apply list_elem_of_here.
Qed.

Lemma blank_input_is_not_generated_witness :
  main world_ok {[ "password_correct" := VBool true ]}
    {| day_input := "   "; submitted := true |}
  = ([StPageConfig; StStyle; StTitle "How was your day today?";
      StForm "day_form"; StInfo empty_input_msg], Ok tt).
Proof.
  apply (blank_input_is_not_generated world_ok
           {[ "password_correct" := VBool true ]}
           {| day_input := "   "; submitted := true |});
    reflexivity.
Defined.

(** ** The password box and its callback *)

Lemma on_change_app (l1 l2 : list event) :
  on_change (l1 ++ l2)
  = match on_change l1 with Some pw => Some pw | None => on_change l2 end.
Proof.
  induction l1 as [|ev l1 IH]; [done|].
  destruct ev; simpl; try done. by destruct (String.eqb key "password").
Qed.

Lemma on_change_no_box (l : list event) :
  (∀ ev, ev ∈ l → ∀ label key pw, ev ≠ StTextInput label key pw) →
  on_change l = None.
Proof.
  induction l as [|ev l IH]; [done|]. intros Hno.
  assert (on_change l = None) as Hl.
  { apply IH. intros ev' Hev'. apply Hno. by apply list_elem_of_further. }
  destruct ev; simpl; try done.
  by destruct (Hno _ (list_elem_of_here _ _) label key captured).
Qed.

Lemma on_change_handle_submit (w : World) (form : FormInput) :
  on_change (events (handle_submit w form)) = None.
Proof.
  apply on_change_no_box. intros ev Hev label key pw ->.
  by destruct (handle_submit_events _ _ _ Hev) as [?|[[? ?]|?]].
Qed.

(** The page a run renders: the box when configured and not authenticated,
    the form when configured and authenticated. *)
Lemma rerun_page (w : World) (ss : gmap string pyval) (form : FormInput) :
  on_change (page (rerun w ss form))
  = (if configured w && negb (authenticated ss)
     then lookup_config w "APP_PASSWORD" else None)
  ∧ shows_form (page (rerun w ss form)) = configured w && authenticated ss.
Proof.
  simpl. rewrite main_unfold, check_password_unfold.
  unfold authenticated, configured.
  destruct (truthy_opt (lookup_config w "APP_PASSWORD")) eqn:Hc; [|done].
  apply truthy_opt_true in Hc as (pw & -> & _). simpl.
  destruct (ss !! "password_correct") as [flag|]; [|done].
  destruct (truthy flag); [|done]. simpl.
  by rewrite on_change_handle_submit.
Qed.

Lemma password_entered_typed (pw typed : string) (ss : gmap string pyval) :
  password_entered pw (<["password" := VStr typed]> ss)
  = Ok (if decide (typed = pw)
        then delete "password" (<["password_correct" := VBool true]>
                                  (<["password" := VStr typed]> ss))
        else <["password_correct" := VBool false]>
               (<["password" := VStr typed]> ss)).
Proof.
  unfold password_entered. rewrite lookup_insert_eq.
  destruct (decide (typed = pw)) as [->|Hne].
  - by rewrite decide_True.
  - rewrite decide_False; [done|]. by intros [= ?].
Qed.

Lemma gate_unlocked (w : World) (ss : gmap string pyval) :
  configured w = true → authenticated ss = true →
  check_password w ss = ([], Ok true) ∧ gate w ss = Unlocked.
Proof.
  intros Hc Ha. unfold gate. rewrite check_password_unfold, Hc. simpl.
  unfold authenticated in Ha.
  destruct (ss !! "password_correct") as [flag|]; [|done]. by rewrite Ha.
Qed.

Lemma step_unlocked (w : World) (a : action) (σ σ' : Session) :
  unlocked_session σ → step w a σ = Some σ' →
  unlocked_session σ' ∧ session_state σ' = session_state σ.
Proof.
  intros [Hauth Hbox] Hstep.
  assert (∃ form, σ' = rerun w (session_state σ) form) as [form ->].
  { destruct a; simpl in Hstep.
    - injection Hstep as <-. eauto.
    - by rewrite Hbox in Hstep.
    - destruct (shows_form _); [|done]. injection Hstep as <-. eauto. }
  split; [|done]. split; [done|].
  destruct (rerun_page w (session_state σ) form) as [-> _].
  by rewrite Hauth, andb_false_r.
Qed.

Lemma run_unlocked (trace : list (World * action)) (σ σ' : Session) :
  unlocked_session σ → run trace σ = Some σ' →
  unlocked_session σ' ∧ session_state σ' = session_state σ.
Proof.
  revert σ. induction trace as [|[w a] trace IH]; intros σ Hinv Hrun.
  - by injection Hrun as <-.
  - simpl in Hrun. destruct (step w a σ) as [σ1|] eqn:Hstep; [|done].
    destruct (step_unlocked _ _ _ _ Hinv Hstep) as [Hinv1 Heq1].
    destruct (IH _ Hinv1 Hrun) as [Hinv' Heq'].
    split; [done|]. by rewrite Heq'.
Qed.

Lemma run_unlocked_offered (trace : list (World * action)) (σ : Session) :
  unlocked_session σ → shows_form (page σ) = true →
  Forall offered_when_unlocked trace → is_Some (run trace σ).
Proof.
  revert σ. induction trace as [|[w a] trace IH]; intros σ Hinv Hform Hall.
  - by eexists.
  - apply Forall_cons in Hall as [[Hc Ha] Hall]. simpl in Hc, Ha.
    assert (∃ form, step w a σ = Some (rerun w (session_state σ) form))
      as [form Hstep].
    { destruct a; simpl; [eauto|by destruct (Ha typed)|].
      rewrite Hform. eauto. }
    simpl. rewrite Hstep.
    destruct (step_unlocked _ _ _ _ Hinv Hstep) as [Hinv1 _].
    apply IH; [done| |done].
    destruct (rerun_page w (session_state σ) form) as [_ ->].
    destruct Hinv as [-> _]. by rewrite Hc.
Qed.

(** ** Submitting the password *)

(** C1.  On a page rendered while the gate was locked, typing the configured
    password sets [password_correct] to [True], deletes the typed text and
    makes the rerun pass the gate; from then on, whatever interactions
    follow and in whatever worlds, the flag stays true and the box is never
    shown again, so every run in which a password is configured finds the
    gate [Unlocked].  The interactions the unlocked page offers do run. *)
Theorem correct_password_unlocks_session (w : World) (pw : string)
    (ss : gmap string pyval) (form : FormInput)
    (Hpw : lookup_config w "APP_PASSWORD" = Some pw)
    (Hset : pw ≠ EmptyString)
    (Hlocked : authenticated ss = false) :
  ∃ σ1,
    step w (EnterPassword pw) (rerun w ss form) = Some σ1
    ∧ session_state σ1 !! "password_correct" = Some (VBool true)
    ∧ session_state σ1 !! "password" = None
    ∧ check_password w (session_state σ1) = ([], Ok true)
    ∧ gate w (session_state σ1) = Unlocked
    ∧ (∀ trace σ2, run trace σ1 = Some σ2 →
         authenticated (session_state σ2) = true
         ∧ on_change (page σ2) = None
         ∧ (∀ w' typed, step w' (EnterPassword typed) σ2 = None)
         ∧ ∀ w', configured w' = true →
             gate w' (session_state σ2) = Unlocked)
    ∧ (∀ trace, Forall offered_when_unlocked trace →
         is_Some (run trace σ1)).
Proof.
  assert (Hc : configured w = true).
  { unfold configured. apply truthy_opt_true. eauto. }
  set (ss1 := delete "password" (<["password_correct" := VBool true]>
                                   (<["password" := VStr pw]> ss))).
  assert (Hflag : ss1 !! "password_correct" = Some (VBool true)).
  { unfold ss1. rewrite lookup_delete_ne by done. apply lookup_insert_eq. }
  assert (Hauth : authenticated ss1 = true)
    by (unfold authenticated; by rewrite Hflag).
  exists (rerun w ss1 no_submit).
  assert (Hinv : unlocked_session (rerun w ss1 no_submit)).
  { split; [done|]. destruct (rerun_page w ss1 no_submit) as [-> _].
    by rewrite Hauth, andb_false_r. }
  destruct (gate_unlocked w ss1 Hc Hauth) as [Hcheck Hgate].
  split; [|split; [done|split; [|split; [done|split; [done|split]]]]].
  - unfold step. destruct (rerun_page w ss form) as [-> _].
    rewrite Hc, Hlocked, Hpw. simpl.
    rewrite password_entered_typed. by rewrite decide_True.
  - unfold ss1. simpl. apply lookup_delete_eq.
  - intros trace σ2 Hrun.
    destruct (run_unlocked _ _ _ Hinv Hrun) as [[Hauth2 Hbox2] Hss2].
    split; [done|]. split; [done|]. split.
    + intros w' typed. simpl. by rewrite Hbox2.
    + intros w' Hc'. by apply gate_unlocked.
  - intros trace Hall. apply run_unlocked_offered; [done| |done].
    destruct (rerun_page w ss1 no_submit) as [_ ->]. by rewrite Hc, Hauth.
Qed.

Lemma correct_password_unlocks_session_witness :
  ∃ σ1,
    step world_ok (EnterPassword "tea") (rerun world_ok ∅ no_submit) = Some σ1
    ∧ session_state σ1 !! "password_correct" = Some (VBool true)
    ∧ session_state σ1 !! "password" = None.
Proof.
  destruct (correct_password_unlocks_session world_ok "tea" ∅ no_submit)
    as (σ1 & Hstep & Hflag & Hgone & _); [reflexivity|done|reflexivity|].
  by exists σ1.
Defined.

(** C2, as stated, fails: after a wrong password the session state still
    holds the typed string under the key of the box. *)
Lemma wrong_password_is_retained :
  ∃ σ1,
    step world_ok (EnterPassword "coffee") (rerun world_ok ∅ no_submit)
    = Some σ1
    ∧ gate world_ok (session_state σ1) = Locked true
    ∧ retained "coffee" (session_state σ1).
Proof.
  eexists. split; [reflexivity|]. split; [reflexivity|].
  exists "password". reflexivity.
Qed.

(** C2, amended.  On a page rendered while the gate was locked, typing a
    string other than the configured password sets [password_correct] to
    [False]: the rerun's [check_password] returns [False] and renders the box
    with the error, the gate is [Locked] with the incorrect flag.  The
    callback deletes nothing: the typed string stays under the key of the
    box, and no other entry of the session state changes. *)
Theorem wrong_password_stays_locked (w : World) (pw typed : string)
    (ss : gmap string pyval) (form : FormInput)
    (Hpw : lookup_config w "APP_PASSWORD" = Some pw)
    (Hset : pw ≠ EmptyString)
    (Hlocked : authenticated ss = false)
    (Hwrong : typed ≠ pw) :
  ∃ σ1,
    step w (EnterPassword typed) (rerun w ss form) = Some σ1
    ∧ session_state σ1 !! "password_correct" = Some (VBool false)
    ∧ check_password w (session_state σ1)
      = ([StTextInput "Enter Password" "password" pw; StError incorrect_msg],
         Ok false)
    ∧ gate w (session_state σ1) = Locked true
    ∧ session_state σ1 !! "password" = Some (VStr typed)
    ∧ ∀ key, key ≠ "password" → key ≠ "password_correct" →
        session_state σ1 !! key = ss !! key.
Proof.
  assert (Hc : configured w = true).
  { unfold configured. apply truthy_opt_true. eauto. }
  set (ss1 := <["password_correct" := VBool false]>
                (<["password" := VStr typed]> ss)).
  assert (Hflag : ss1 !! "password_correct" = Some (VBool false))
    by apply lookup_insert_eq.
  assert (Hcheck : check_password w ss1
            = ([StTextInput "Enter Password" "password" pw;
                StError incorrect_msg], Ok false)).
  { by rewrite check_password_unfold, Hc, Hflag, Hpw. }
  exists (rerun w ss1 no_submit).
  split; [|split; [done|split; [done|split; [|split]]]].
  - unfold step. destruct (rerun_page w ss form) as [-> _].
    rewrite Hc, Hlocked, Hpw. simpl.
    rewrite password_entered_typed. by rewrite decide_False.
  - simpl. unfold gate. by rewrite Hcheck.
  - unfold ss1. simpl. rewrite lookup_insert_ne by done.
    apply lookup_insert_eq.
  - intros key Hk1 Hk2. unfold ss1. simpl.
    by rewrite !lookup_insert_ne.
Qed.

Lemma wrong_password_stays_locked_witness :
  ∃ σ1,
    step world_ok (EnterPassword "coffee") (rerun world_ok ∅ no_submit)
    = Some σ1
    ∧ session_state σ1 !! "password_correct" = Some (VBool false).
Proof.
  destruct (wrong_password_stays_locked world_ok "tea" "coffee" ∅ no_submit)
    as (σ1 & Hstep & Hflag & _); [reflexivity|done|reflexivity|done|].
  by exists σ1.
Defined.

(** ** The system instruction *)

Lemma append_cons (c : ascii) (s r : string) :
  String c s +:+ r = String c (s +:+ r).
Proof. reflexivity. Qed.

Lemma append_empty_r (s : string) : s +:+ EmptyString = s.
Proof. induction s as [|c s IH]; [done|]. by rewrite append_cons, IH. Qed.

Lemma out_string_char (c : ascii) (s : string) (r : option (result string)) :
  out_char c (out_string s r) = out_string (String c s) r.
Proof. by destruct r as [[?|?]|]. Qed.

Lemma out_string_empty (r : option (result string)) :
  out_string EmptyString r = r.
Proof. by destruct r as [[?|?]|]. Qed.

Lemma format_scan_text (v pre rest : string) :
  brace_free pre = true →
  format_scan v Text (pre +:+ rest) = out_string pre (format_scan v Text rest).
Proof.
  induction pre as [|c pre IH]; intros Hfree.
  - by rewrite out_string_empty.
  - simpl in Hfree.
    apply andb_true_iff in Hfree as [Hc Hfree].
    apply andb_true_iff in Hc as [Hl Hr].
    apply negb_true_iff in Hl, Hr.
    rewrite append_cons. simpl. rewrite Hl, Hr, IH by done.
    apply out_string_char.
Qed.

Lemma format_scan_field (v rest : string) :
  format_scan v Text ("{poet}" +:+ rest) = out_string v (format_scan v Text rest).
Proof. reflexivity. Qed.

Lemma format_scan_join (v : string) (segs : list string) :
  Forall (λ s, brace_free s = true) segs →
  format_scan v Text (join "{poet}" segs) = Some (Ok (join v segs)).
Proof.
  induction 1 as [|s segs Hs Hall IH]; [done|].
  destruct segs as [|s' segs].
  - simpl. rewrite <- (append_empty_r s) at 1.
    rewrite format_scan_text by done. simpl.
    by rewrite append_empty_r.
  - change (join "{poet}" (s :: s' :: segs))
      with (s +:+ "{poet}" +:+ join "{poet}" (s' :: segs)).
    rewrite format_scan_text, format_scan_field, IH by done.
    reflexivity.
Qed.

Lemma system_instruction_join (w : World) (poet : string) (segs : list string) :
  Forall (λ s, brace_free s = true) segs →
  system_prompt_template w = join "{poet}" segs →
  system_instruction w poet = Ok (join poet segs).
Proof.
  intros Hfree Ht. unfold system_instruction, py_format.
  by rewrite Ht, format_scan_join.
Qed.

(** What a lookup finds once the secret store has been read: the store's
    value, and the environment's only where the store has none. *)
Lemma lookup_config_read_secrets (w : World) (store : gmap string string)
    (key : string) :
  secrets w = Some store →
  lookup_config (read_secrets w) key
  = match store !! key with
    | Some v => Some v
    | None => getenv w key
    end.
Proof.
  intros Hs. unfold lookup_config, secrets_fallback, getenv, read_secrets.
  rewrite Hs. simpl. rewrite ?Hs.
  destruct (store !! key) as [v|] eqn:Hv.
  - rewrite (lookup_union_Some_l _ _ _ _ Hv).
    by destruct (truthy_opt (Some v)).
  - rewrite (lookup_union_r _ _ _ Hv).
    by destruct (truthy_opt (environ w !! key)).
Qed.

Lemma read_secrets_unreadable (w : World) :
  secrets w = None → read_secrets w = w.
Proof. unfold read_secrets. by intros ->. Qed.

(** A lookup does not change what the same lookup finds next. *)
Lemma lookup_config_after_lookup (w : World) (key : string) :
  lookup_config (after_lookup w key) key = lookup_config w key.
Proof.
  unfold after_lookup. destruct (truthy_opt (getenv w key)) eqn:Henv; [done|].
  destruct (secrets w) as [store|] eqn:Hs.
  - rewrite (lookup_config_read_secrets _ _ _ Hs).
    unfold lookup_config, secrets_fallback. rewrite Henv, Hs.
    by destruct (store !! key).
  - by rewrite read_secrets_unreadable.
Qed.

(** A value missing before the store is read is missing after. *)
Lemma lookup_config_missing_after (w : World) (key key' : string) :
  truthy_opt (lookup_config w key) = false →
  truthy_opt (lookup_config (after_lookup w key') key) = false.
Proof.
  intros Hmiss. unfold after_lookup.
  destruct (truthy_opt (getenv w key')); [done|].
  destruct (secrets w) as [store|] eqn:Hs.
  - rewrite (lookup_config_read_secrets _ _ _ Hs).
    apply lookup_config_missing in Hmiss as [Henv [Hno|(st & Hst & Hv)]].
    + by rewrite Hno in Hs.
    + rewrite Hs in Hst. injection Hst as <-.
      by destruct (store !! key).
  - by rewrite read_secrets_unreadable.
Qed.

Lemma configured_template_sources (w : World) :
  (truthy_opt (getenv w "OPENAI_API_KEY") = true →
     configured_template w = lookup_config w "POEM_SYSTEM_PROMPT")
  ∧ (secrets w = None →
     configured_template w = getenv w "POEM_SYSTEM_PROMPT")
  ∧ (∀ store, truthy_opt (getenv w "OPENAI_API_KEY") = false →
       secrets w = Some store →
       configured_template w
       = match store !! "POEM_SYSTEM_PROMPT" with
         | Some t => Some t
         | None => getenv w "POEM_SYSTEM_PROMPT"
         end).
Proof.
  unfold configured_template, after_lookup. split; [|split].
  - by intros ->.
  - intros Hs. rewrite (read_secrets_unreadable _ Hs), Tauto.if_same.
    unfold lookup_config, secrets_fallback. rewrite Hs.
    by destruct (truthy_opt _).
  - intros store -> Hs. by apply lookup_config_read_secrets.
Qed.

Lemma system_prompt_template_configured (w : World) (t : string) :
  configured_template w = Some t → t ≠ EmptyString →
  system_prompt_template w = t.
Proof.
  unfold configured_template, system_prompt_template.
  intros -> Hne. simpl. apply String.eqb_neq in Hne. by rewrite Hne.
Qed.

Lemma system_prompt_template_default (w : World) :
  truthy_opt (configured_template w) = false →
  system_prompt_template w = default_template.
Proof. unfold configured_template, system_prompt_template. by intros ->. Qed.

(** Once key, persona and system message are there, the client is called
    with them, first of all. *)
Lemma get_poem_calls (w : World) (d key poet system : string) :
  lookup_config w "OPENAI_API_KEY" = Some key → key ≠ EmptyString →
  select_poet (randbelow w) poets = Ok poet →
  system_instruction w poet = Ok system →
  ∃ rest, events (get_poem w d) = ApiCall key model_id system d :: rest.
Proof.
  intros Hkey Hne Hpoet Hsys. rewrite get_poem_unfold, Hkey, Hpoet, Hsys.
  apply String.eqb_neq in Hne. rewrite Hne. unfold handled. simpl.
  repeat match goal with
         | |- context [match ?x with _ => _ end] => destruct x
         end; by eexists.
Qed.

Lemma get_poem_request (w : World) (d key model system user : string) :
  ApiCall key model system user ∈ events (get_poem w d) →
  ∃ poet, select_poet (randbelow w) poets = Ok poet
          ∧ system_instruction w poet = Ok system
          ∧ lookup_config w "OPENAI_API_KEY" = Some key
          ∧ model = model_id ∧ user = d.
Proof.
  rewrite get_poem_unfold. unfold handled, events.
  destruct (lookup_config w "OPENAI_API_KEY") as [k|];
    [|intros Hev; by elem_cases Hev].
  destruct (String.eqb k EmptyString); [intros Hev; by elem_cases Hev|].
  destruct (select_poet _ _) as [poet|e]; [|intros Hev; by elem_cases Hev].
  destruct (system_instruction w poet) as [sys|e] eqn:Hsys;
    [|destruct (is_Exception e); intros Hev; by elem_cases Hev].
  repeat match goal with
         | |- context [match ?x with _ => _ end] => destruct x
         end; simpl; intros Hev; elem_cases Hev; by exists poet.
Qed.

(** C6.  The system instruction is the configured template with the selected
    persona's name in place of each [{poet}].  The configured template is
    the one found when [get_poem] looks it up, in the environment first and
    in the secret store second, after the lookup of the key: when that
    lookup read the secret store, the store's template stands for the
    environment's.  With no template configured the built-in one is used;
    with the template and the persona of the example the instruction is the
    sentence of the example.  [get_poem] calls the provider's client with
    this instruction as system message, and with no other. *)
Theorem system_instruction_substitutes_poet (w : World) :
  (∀ poet segs,
      Forall (λ s, brace_free s = true) segs →
      system_prompt_template w = join "{poet}" segs →
      system_instruction w poet = Ok (join poet segs))
  ∧ (∀ t, configured_template w = Some t → t ≠ EmptyString →
       system_prompt_template w = t)
  ∧ (truthy_opt (getenv w "OPENAI_API_KEY") = true →
       configured_template w = lookup_config w "POEM_SYSTEM_PROMPT")
  ∧ (secrets w = None →
       configured_template w = getenv w "POEM_SYSTEM_PROMPT")
  ∧ (∀ store, truthy_opt (getenv w "OPENAI_API_KEY") = false →
       secrets w = Some store →
       configured_template w
       = match store !! "POEM_SYSTEM_PROMPT" with
         | Some t => Some t
         | None => getenv w "POEM_SYSTEM_PROMPT"
         end)
  ∧ (truthy_opt (configured_template w) = false →
       system_prompt_template w
       = "You are {poet}. Write a short poem based on the user's description of their day."
       ∧ ∀ poet, system_instruction w poet
           = Ok ("You are " +:+ poet
                 +:+ ". Write a short poem based on the user's description of their day."))
  ∧ (configured_template w = Some "You are {poet}, a grumpy critic." →
     system_instruction w "Dr. Seuss" = Ok "You are Dr. Seuss, a grumpy critic.")
  ∧ (∀ d key poet system,
       lookup_config w "OPENAI_API_KEY" = Some key → key ≠ EmptyString →
       select_poet (randbelow w) poets = Ok poet →
       system_instruction w poet = Ok system →
       ∃ rest, events (get_poem w d) = ApiCall key model_id system d :: rest)
  ∧ (∀ d key model system user,
       ApiCall key model system user ∈ events (get_poem w d) →
       ∃ poet, select_poet (randbelow w) poets = Ok poet
               ∧ system_instruction w poet = Ok system).
Proof.
  destruct (configured_template_sources w) as (Henv & Hnone & Hstore).
  split; [|split; [|split; [|split; [|split; [|split; [|split; [|split]]]]]]];
    try done.
  - intros poet segs. apply system_instruction_join.
  - apply system_prompt_template_configured.
  - intros Hmiss. apply system_prompt_template_default in Hmiss.
    split; [done|]. intros poet.
    apply (system_instruction_join w poet
             ["You are ";
              ". Write a short poem based on the user's description of their day."]);
      [|done].
    by repeat constructor.
  - intros Ht. apply system_prompt_template_configured in Ht; [|done].
    apply (system_instruction_join w "Dr. Seuss"
             ["You are "; ", a grumpy critic."]); [|done].
    by repeat constructor.
  - intros d key poet system. apply get_poem_calls.
  - intros d key model system user Hev.
    destruct (get_poem_request _ _ _ _ _ _ Hev) as (poet & ? & ? & _).
    eauto.
Qed.

Lemma system_instruction_substitutes_poet_witness :
  system_instruction world_critic "Dr. Seuss"
  = Ok "You are Dr. Seuss, a grumpy critic."
  ∧ system_instruction world_ok "Robert Frost"
    = Ok "You are Robert Frost. Write a short poem based on the user's description of their day."
  ∧ ∃ rest, events (get_poem world_two_templates "It rained.")
            = ApiCall "sk-2" model_id "B Robert Frost" "It rained." :: rest.
Proof.
  split; [|split].
  - apply (system_instruction_substitutes_poet world_critic). reflexivity.
  - apply (system_instruction_substitutes_poet world_ok). reflexivity.
  - apply (system_instruction_substitutes_poet world_two_templates
             ) with (poet := "Robert Frost"); reflexivity || done.
Defined.

(** ** Persona selection *)

Lemma select_poet_lookup (rand : nat → nat) (ps : list string) (p : string) :
  ps ≠ [] →
  select_poet rand ps = Ok p ↔ ps !! rand (length ps) = Some p.
Proof.
  intros Hne. unfold select_poet, random_choice.
  destruct ps as [|p0 ps]; [done|].
  destruct ((p0 :: ps) !! rand (length (p0 :: ps))) as [x|].
  - split; by intros [= ->].
  - split; by intros [=].
Qed.

Lemma select_poet_member (rand : nat → nat) (ps : list string) (p : string) :
  ps ≠ [] → select_poet rand ps = Ok p → p ∈ ps.
Proof.
  intros Hne Hsel. apply select_poet_lookup in Hsel; [|done].
  by eapply list_elem_of_lookup_2.
Qed.

Lemma select_poet_in_range (rand : nat → nat) (ps : list string) :
  rand (length ps) < length ps →
  ∃ p, select_poet rand ps = Ok p ∧ ps !! rand (length ps) = Some p.
Proof.
  intros Hlt. destruct (lookup_lt_is_Some_2 ps _ Hlt) as [p Hp].
  exists p. split; [|done]. apply select_poet_lookup; [|done].
  intros ->. simpl in Hlt. lia.
Qed.

Lemma poets_nodup : NoDup poets.
Proof. apply (bool_decide_unpack _). by vm_compute. Qed.

(** C9.  The list holds 11 distinct names.  The selected persona is the
    element at the index the random source draws below 11, so it is a member
    of the list, and a draw in range always selects; each name is selected by
    exactly one of the 11 draws, so a uniform draw gives a uniform choice.
    On an empty list the selection is the sentinel name, not an error. *)
Theorem persona_selection (rand : nat → nat) :
  length poets = 11
  ∧ NoDup poets
  ∧ (∀ p, select_poet rand poets = Ok p → p ∈ poets)
  ∧ (rand 11 < 11 →
     ∃ p, select_poet rand poets = Ok p ∧ poets !! rand 11 = Some p)
  ∧ (∀ p, p ∈ poets →
     ∃ i, i < 11 ∧ ∀ j, select_poet (λ _, j) poets = Ok p ↔ j = i)
  ∧ select_poet rand [] = Ok "Unknown Poet".
Proof.
  split; [done|]. split; [apply poets_nodup|]. split; [|split; [|split]].
  - intros p. by apply select_poet_member.
  - apply (select_poet_in_range rand poets).
  - intros p Hp. apply list_elem_of_lookup_1 in Hp as [i Hi].
    exists i. split; [by apply lookup_lt_Some in Hi|].
    intros j. rewrite select_poet_lookup by done. split.
    + intros Hj. by apply (NoDup_lookup poets j i p poets_nodup).
    + by intros ->.
  - done.
Qed.

Lemma persona_selection_witness :
  ∃ p, select_poet (λ _, 7) poets = Ok p ∧ poets !! 7 = Some p.
Proof.
  apply (persona_selection (λ _, 7)). simpl. lia.
Defined.

(** ** Failures of the external call *)

Lemma get_poem_provider_failure (w : World) (d key poet system : string)
    (e : exn) :
  lookup_config w "OPENAI_API_KEY" = Some key → key ≠ EmptyString →
  select_poet (randbelow w) poets = Ok poet →
  system_instruction w poet = Ok system →
  provider w key model_id system d = Raise e →
  get_poem w d = handled [ApiCall key model_id system d] e.
Proof.
  intros Hkey Hne Hpoet Hsys Hfail.
  rewrite get_poem_unfold, Hkey, Hpoet, Hsys. simpl. rewrite Hfail.
  apply String.eqb_neq in Hne. by rewrite Hne.
Qed.

(** C7, as stated, fails: the pair returned after a failed call is
    [(None, None)], which carries no text at all. *)
Lemma failure_pair_carries_nothing :
  provider world_down "sk-1" model_id
    "You are Robert Frost. Write a short poem based on the user's description of their day."
    "It rained." = Raise (Exn ProviderError "Connection error.")
  ∧ outcome (get_poem world_down "It rained.") = Ok (None, None)
  ∧ ¬ returns_failure_description world_down "It rained.".
Proof.
  split; [reflexivity|]. split; [reflexivity|].
  intros (pair & text & Hret & Hin & _).
  assert (pair = (None, None)) as -> by (by injection Hret as <-).
  by apply elem_of_nil in Hin.
Qed.

(** C7, amended.  When the provider's call raises an exception [e] (a
    subclass of [Exception]), [get_poem] does not raise: after the request it
    renders the error message made of a fixed prefix and [str(e)], which is
    not empty, and returns the pair [(None, None)]; the caller then finishes
    its run normally. *)
Theorem provider_failure_is_reported (w : World) (d key poet system : string)
    (e : exn)
    (Hkey : lookup_config w "OPENAI_API_KEY" = Some key)
    (Hne : key ≠ EmptyString)
    (Hpoet : select_poet (randbelow w) poets = Ok poet)
    (Hsys : system_instruction w poet = Ok system)
    (Hfail : provider w key model_id system d = Raise e)
    (Hexc : is_Exception e = true) :
  get_poem w d
  = ([ApiCall key model_id system d;
      StError ("Error generating poem: " +:+ exn_str e)],
     Ok (None, None))
  ∧ "Error generating poem: " +:+ exn_str e ≠ EmptyString
  ∧ carried (None, None) = []
  ∧ (strip d ≠ EmptyString →
     handle_submit w {| day_input := d; submitted := true |}
     = ([StSpinner "Writing..."; CallGetPoem d; ApiCall key model_id system d;
         StError ("Error generating poem: " +:+ exn_str e)],
        Ok tt)).
Proof.
  assert (Hget : get_poem w d
            = ([ApiCall key model_id system d;
                StError ("Error generating poem: " +:+ exn_str e)],
               Ok (None, None))).
  { rewrite (get_poem_provider_failure w d key poet system e) by done.
    unfold handled. by rewrite Hexc. }
  split; [done|]. split; [done|]. split; [done|].
  intros Hfull. unfold handle_submit. simpl.
  apply String.eqb_neq in Hfull. by rewrite Hfull, Hget.
Qed.

Lemma provider_failure_is_reported_witness :
  get_poem world_down "It rained."
  = ([ApiCall "sk-1" model_id
        "You are Robert Frost. Write a short poem based on the user's description of their day."
        "It rained.";
      StError "Error generating poem: Connection error."],
     Ok (None, None)).
Proof.
  apply (provider_failure_is_reported world_down "It rained." "sk-1"
           "Robert Frost"
           "You are Robert Frost. Write a short poem based on the user's description of their day."
           (Exn ProviderError "Connection error."));
    (reflexivity || done).
Defined.

(** ** The shape of the returned pair *)

(** C10, as stated, fails: a completion whose message has no content makes
    [get_poem] return [None] with the persona's name. *)
Lemma pair_with_persona_only :
  get_poem world_silent "It rained."
  = ([ApiCall "sk-1" model_id
        "You are Robert Frost. Write a short poem based on the user's description of their day."
        "It rained."],
     Ok (None, Some "Robert Frost"))
  ∧ ¬ all_or_nothing (None, Some "Robert Frost").
Proof. split; [reflexivity|]. by intros []. Qed.

(** C10, amended.  Whatever [get_poem] returns, it never holds a poem
    without a persona.  A persona in the pair is one of the listed poets, and
    the text beside it is the content of the first choice of the provider's
    answer to the request, as it came: present or not.  [get_poem] raises
    only what [except Exception] does not catch, or what the selection
    raised before the [try]. *)
Theorem get_poem_pair_shape (w : World) (d : string) :
  match outcome (get_poem w d) with
  | Ok (text, None) => text = None
  | Ok (text, Some poet) =>
      poet ∈ poets
      ∧ ∃ key system response c rest,
          events (get_poem w d) = [ApiCall key model_id system d]
          ∧ provider w key model_id system d = Ok response
          ∧ choices response = c :: rest
          ∧ message_content c = text
  | Raise e =>
      is_Exception e = false ∨ select_poet (randbelow w) poets = Raise e
  end.
Proof.
  rewrite get_poem_unfold. unfold handled, events, outcome.
  destruct (lookup_config w "OPENAI_API_KEY") as [key|]; [|done].
  destruct (String.eqb key EmptyString); [done|].
  destruct (select_poet _ _) as [poet|e] eqn:Hpoet; [|by right].
  apply select_poet_member in Hpoet; [|done].
  destruct (system_instruction w poet) as [system|e].
  - simpl.
    destruct (provider w key model_id system d) as [response|e] eqn:Hcall.
    + destruct (choices response) as [|c rest] eqn:Hchoices; [done|].
      simpl. split; [done|]. by exists key, system, response, c, rest.
    + destruct (is_Exception e) eqn:Hexc; [done|by left].
  - destruct (is_Exception e) eqn:Hexc; [done|by left].
Qed.

(** * Further properties *)

(** ** The locked gate *)

Lemma main_locked (w : World) (ss : gmap string pyval) (form : FormInput) :
  configured w && authenticated ss = false →
  main w ss form = (StPageConfig :: events (check_password w ss), stopped)
  ∧ shows_form (events (main w ss form)) = false
  ∧ ∀ ev, ev ∈ events (main w ss form) → generation_event ev = false.
Proof.
  intros Hno.
  assert (Hmain : main w ss form
            = (StPageConfig :: events (check_password w ss), stopped))
    by (by rewrite main_unfold, Hno).
  split; [done|]. rewrite Hmain, check_password_unfold. simpl. split.
  - repeat match goal with
           | |- context [match ?x with _ => _ end] => destruct x
           end; done.
  - intros ev.
    repeat match goal with
           | |- context [match ?x with _ => _ end] => destruct x
           end; simpl; intros Hev; by elem_cases Hev.
Qed.

Lemma step_locked (w : World) (a : action) (σ σ' : Session) :
  locked_session w σ → not_the_password w a → step w a σ = Some σ' →
  locked_session w σ'.
Proof.
  intros (form & Hσ & Hauth) Hwrong Hstep.
  destruct (rerun_page w (session_state σ) form) as [Hbox Hform].
  rewrite <- Hσ in Hbox, Hform. rewrite Hauth in Hbox, Hform.
  rewrite andb_false_r in Hform. destruct a as [|typed|text]; simpl in Hstep.
  - injection Hstep as <-. by exists no_submit.
  - rewrite Hbox in Hstep. simpl in Hstep. rewrite andb_true_r in Hstep.
    destruct (configured w); [|done].
    destruct (lookup_config w "APP_PASSWORD") as [pw|] eqn:Hpw; [|done].
    rewrite password_entered_typed in Hstep.
    rewrite decide_False in Hstep by (intros ->; by apply (Hwrong pw)).
    injection Hstep as <-. exists no_submit. split; [done|]. simpl.
    unfold authenticated. by rewrite lookup_insert_eq.
  - by rewrite Hform in Hstep.
Qed.

(** X1.  In a world whose password is never typed, a session that is locked
    stays locked through every sequence of interactions: the flag is never
    true, and no page shows the form or any event of generation. *)
Theorem gate_holds_without_password (w : World) (ss : gmap string pyval)
    (form : FormInput) (trace : list action) (σ' : Session)
    (Hlocked : authenticated ss = false)
    (Hwrong : Forall (not_the_password w) trace)
    (Hrun : run (in_world w trace) (rerun w ss form) = Some σ') :
  authenticated (session_state σ') = false
  ∧ shows_form (page σ') = false
  ∧ ∀ ev, ev ∈ page σ' → generation_event ev = false.
Proof.
  assert (Hinv : locked_session w σ').
  { assert (Hstart : locked_session w (rerun w ss form)) by (by exists form).
    revert Hrun Hstart. generalize (rerun w ss form) as σ.
    induction Hwrong as [|a trace Ha Hall IH]; intros σ Hrun Hσ.
    - by injection Hrun as <-.
    - simpl in Hrun. destruct (step w a σ) as [σ1|] eqn:Hstep; [|done].
      apply (IH σ1); [done|]. by eapply step_locked. }
  destruct Hinv as (f & -> & Hauth). simpl in *. split; [done|].
  apply main_locked. by rewrite Hauth, andb_false_r.
Qed.

Lemma gate_holds_without_password_witness :
  authenticated
    (session_state
       (rerun world_ok
          (<["password_correct" := VBool false]>
             (<["password" := VStr "coffee"]> ∅)) no_submit)) = false.
Proof.
  apply (gate_holds_without_password world_ok ∅ no_submit
           [EnterPassword "coffee"; Load]).
  - reflexivity.
  - repeat constructor; by intros typed [= <-].
  - reflexivity.
Defined.

(** ** Retrying *)

Lemma step_wrong_guess (w : World) (pw typed : string)
    (ss : gmap string pyval) (form : FormInput) :
  lookup_config w "APP_PASSWORD" = Some pw → pw ≠ EmptyString →
  authenticated ss = false → typed ≠ pw →
  step w (EnterPassword typed) (rerun w ss form)
  = Some (rerun w (<["password_correct" := VBool false]>
                     (<["password" := VStr typed]> ss)) no_submit).
Proof.
  intros Hpw Hset Hlocked Hwrong.
  assert (Hc : configured w = true).
  { unfold configured. apply truthy_opt_true. eauto. }
  unfold step. destruct (rerun_page w ss form) as [-> _].
  rewrite Hc, Hlocked, Hpw. simpl.
  rewrite password_entered_typed. by rewrite decide_False.
Qed.

Lemma run_cons (w : World) (a : action) (rest : list action) (σ : Session) :
  run (in_world w (a :: rest)) σ
  = match step w a σ with
    | Some σ' => run (in_world w rest) σ'
    | None => None
    end.
Proof. reflexivity. Qed.

Lemma run_wrong_guesses (w : World) (pw : string) (guesses : list string)
    (ss : gmap string pyval) (form : FormInput) :
  lookup_config w "APP_PASSWORD" = Some pw → pw ≠ EmptyString →
  authenticated ss = false → Forall (λ g, g ≠ pw) guesses →
  ∃ ss' form',
    run (in_world w (EnterPassword <$> guesses)) (rerun w ss form)
    = Some (rerun w ss' form')
    ∧ authenticated ss' = false
    ∧ (∀ g, last guesses = Some g →
         ss' !! "password_correct" = Some (VBool false)
         ∧ ss' !! "password" = Some (VStr g)).
Proof.
  intros Hpw Hset Hlocked Hall. revert ss form Hlocked.
  induction Hall as [|g guesses Hg Hall IH]; intros ss form Hlocked.
  - exists ss, form. by split.
  - rewrite fmap_cons, run_cons, (step_wrong_guess w pw g) by done.
    set (ss1 := <["password_correct" := VBool false]>
                  (<["password" := VStr g]> ss)).
    assert (Hflag : ss1 !! "password_correct" = Some (VBool false))
      by apply lookup_insert_eq.
    assert (Hlocked1 : authenticated ss1 = false)
      by (unfold authenticated; by rewrite Hflag).
    destruct (IH ss1 no_submit Hlocked1) as (ss' & form' & Hrun & Hl & Hlast).
    exists ss', form'. split; [done|]. split; [done|].
    intros g'. destruct guesses as [|g2 guesses].
    + intros [= <-]. injection Hrun as Hs _. rewrite <- Hs.
      split; [done|].
      unfold ss1. rewrite lookup_insert_ne by done. apply lookup_insert_eq.
    + intros Hg'. by apply Hlast.
Qed.

(** X2.  Wrong passwords never lock the visitor out.  After any number of
    wrong guesses the page still offers the box, the gate is [Locked] with
    the error shown, the last guess sits in the session state, and typing
    the configured password then unlocks the session. *)
Theorem wrong_guesses_allow_retry (w : World) (pw : string)
    (guesses : list string) (last_guess : string)
    (ss : gmap string pyval) (form : FormInput)
    (Hpw : lookup_config w "APP_PASSWORD" = Some pw)
    (Hset : pw ≠ EmptyString)
    (Hlocked : authenticated ss = false)
    (Hwrong : Forall (λ g, g ≠ pw) guesses)
    (Hlast : last guesses = Some last_guess) :
  ∃ σ σ',
    run (in_world w (EnterPassword <$> guesses)) (rerun w ss form) = Some σ
    ∧ on_change (page σ) = Some pw
    ∧ gate w (session_state σ) = Locked true
    ∧ retained last_guess (session_state σ)
    ∧ step w (EnterPassword pw) σ = Some σ'
    ∧ authenticated (session_state σ') = true
    ∧ gate w (session_state σ') = Unlocked.
Proof.
  assert (Hc : configured w = true).
  { unfold configured. apply truthy_opt_true. eauto. }
  destruct (run_wrong_guesses w pw guesses ss form Hpw Hset Hlocked Hwrong)
    as (ss' & form' & Hrun & Hl & Hg).
  destruct (Hg _ Hlast) as [Hflag Htyped].
  set (ss1 := delete "password" (<["password_correct" := VBool true]>
                                   (<["password" := VStr pw]> ss'))).
  assert (Hauth : authenticated ss1 = true).
  { unfold authenticated, ss1. rewrite lookup_delete_ne by done.
    by rewrite lookup_insert_eq. }
  exists (rerun w ss' form'), (rerun w ss1 no_submit).
  split; [done|]. split; [|split; [|split; [|split; [|split]]]].
  - destruct (rerun_page w ss' form') as [-> _]. by rewrite Hc, Hl.
  - simpl. unfold gate. by rewrite check_password_unfold, Hc, Hflag.
  - by exists "password".
  - unfold step. destruct (rerun_page w ss' form') as [-> _].
    rewrite Hc, Hl, Hpw. simpl.
    rewrite password_entered_typed. by rewrite decide_True.
  - done.
  - by apply gate_unlocked.
Qed.

Lemma wrong_guesses_allow_retry_witness :
  ∃ σ σ',
    run (in_world world_ok (EnterPassword <$> ["coffee"; "milk"]))
      (rerun world_ok ∅ no_submit) = Some σ
    ∧ on_change (page σ) = Some "tea"
    ∧ gate world_ok (session_state σ) = Locked true
    ∧ retained "milk" (session_state σ)
    ∧ step world_ok (EnterPassword "tea") σ = Some σ'
    ∧ authenticated (session_state σ') = true
    ∧ gate world_ok (session_state σ') = Unlocked.
Proof.
  apply (wrong_guesses_allow_retry world_ok "tea" ["coffee"; "milk"] "milk"
           ∅ no_submit); try done.
  by repeat constructor.
Defined.

(** X3.  The box checks what is typed against the password that was
    configured when its page was rendered: whatever the configuration is at
    the moment of typing, the session is unlocked exactly when the typed
    text is the password of the render. *)
Theorem box_checks_the_password_of_its_render (w0 w1 : World)
    (pw0 typed : string) (ss : gmap string pyval) (form : FormInput)
    (Hpw : lookup_config w0 "APP_PASSWORD" = Some pw0)
    (Hset : pw0 ≠ EmptyString)
    (Hlocked : authenticated ss = false) :
  ∃ σ1,
    step w1 (EnterPassword typed) (rerun w0 ss form) = Some σ1
    ∧ (authenticated (session_state σ1) = true ↔ typed = pw0).
Proof.
  assert (Hc : configured w0 = true).
  { unfold configured. apply truthy_opt_true. eauto. }
  unfold step. destruct (rerun_page w0 ss form) as [-> _].
  rewrite Hc, Hlocked, Hpw. simpl. rewrite password_entered_typed.
  eexists. split; [done|]. simpl. unfold authenticated.
  destruct (decide (typed = pw0)) as [->|Hne].
  - rewrite lookup_delete_ne by done. by rewrite lookup_insert_eq.
  - by rewrite lookup_insert_eq.
Qed.

Lemma box_checks_the_password_of_its_render_witness :
  ∃ σ1,
    step world_new_password (EnterPassword "tea") (rerun world_ok ∅ no_submit)
    = Some σ1
    ∧ (authenticated (session_state σ1) = true ↔ "tea" = "tea").
Proof.
  apply (box_checks_the_password_of_its_render world_ok world_new_password
           "tea" "tea" ∅ no_submit); done.
Defined.

(** ** The flag, once recorded *)

Lemma password_entered_flag (pw : string) (ss ss' : gmap string pyval) :
  password_entered pw ss = Ok ss' → is_Some (ss' !! "password_correct").
Proof.
  unfold password_entered. destruct (ss !! "password") as [v|]; [|done].
  destruct (decide (v = VStr pw)); intros [= <-].
  - rewrite lookup_delete_ne by done. by rewrite lookup_insert_eq.
  - by rewrite lookup_insert_eq.
Qed.

Lemma step_flag (w : World) (a : action) (σ σ' : Session) :
  step w a σ = Some σ' →
  is_Some (session_state σ !! "password_correct") →
  is_Some (session_state σ' !! "password_correct").
Proof.
  destruct a as [|typed|text]; simpl.
  - by intros [= <-].
  - destruct (on_change (page σ)) as [pw|]; [|done].
    rewrite password_entered_typed. intros [= <-] _. simpl.
    apply (password_entered_flag pw
             (<["password" := VStr typed]> (session_state σ))).
    apply password_entered_typed.
  - destruct (shows_form (page σ)); [|done]. by intros [= <-].
Qed.

(** X4.  The flag [password_correct], once recorded, is never removed,
    whatever the visitor does and in whatever worlds: the callback only
    ever sets it, and no run deletes it.  So once a password has been typed
    the gate never returns to its first-run state, the box without the
    error. *)
Theorem flag_is_never_removed (trace : list (World * action))
    (σ σ' : Session)
    (Hrun : run trace σ = Some σ')
    (Hset : is_Some (session_state σ !! "password_correct")) :
  is_Some (session_state σ' !! "password_correct")
  ∧ ∀ w, gate w (session_state σ') ≠ Locked false.
Proof.
  assert (Hflag : is_Some (session_state σ' !! "password_correct")).
  { revert σ Hrun Hset.
    induction trace as [|[w a] trace IH]; intros σ Hrun Hset.
    - by injection Hrun as <-.
    - simpl in Hrun. destruct (step w a σ) as [σ1|] eqn:Hstep; [|done].
      apply (IH σ1); [done|]. by apply (step_flag w a σ). }
  split; [done|]. destruct Hflag as [flag Hf].
  intros w. unfold gate. rewrite check_password_unfold, Hf.
  destruct (configured w); simpl; [|done]. by destruct (truthy flag).
Qed.

Lemma flag_is_never_removed_witness :
  is_Some
    (session_state
       (rerun world_ok
          (<["password_correct" := VBool false]>
             (<["password" := VStr "milk"]>
                {[ "password_correct" := VBool false ]}))
          no_submit) !! "password_correct").
Proof.
  apply (flag_is_never_removed [(world_ok, EnterPassword "milk")]
           (rerun world_ok {[ "password_correct" := VBool false ]} no_submit)).
  - reflexivity.
  - by eexists.
Defined.

(** ** [handle_submit] on a text that passes the guard *)

Lemma handle_submit_cases (w : World) (form : FormInput) :
  handle_submit w form
  = if submitted form then
      if String.eqb (strip (day_input form)) EmptyString
      then ([StInfo empty_input_msg], Ok tt)
      else
        let g := get_poem w (day_input form) in
        (StSpinner "Writing..." :: CallGetPoem (day_input form)
           :: events g ++ rendering (outcome g),
         finished (outcome g))
    else ([], Ok tt).
Proof.
  unfold handle_submit. destruct (submitted form); [|done]. simpl.
  destruct (String.eqb (strip (day_input form)) EmptyString); [done|]. simpl.
  destruct (get_poem w (day_input form)) as [l [[[poem|] [poet|]]|e]]; simpl;
    rewrite ?app_nil_r; try done.
  by destruct (negb (String.eqb poem EmptyString)
               && negb (String.eqb poet EmptyString)).
Qed.

Lemma handle_submit_unfold (w : World) (d : string) :
  strip d ≠ EmptyString →
  handle_submit w {| day_input := d; submitted := true |}
  = (StSpinner "Writing..." :: CallGetPoem d
       :: events (get_poem w d) ++ rendering (outcome (get_poem w d)),
     finished (outcome (get_poem w d))).
Proof.
  intros Hfull. rewrite handle_submit_cases. simpl.
  apply String.eqb_neq in Hfull. by rewrite Hfull.
Qed.

(** ** Failures inside the [try] block *)

Lemma get_poem_format_failure (w : World) (d key poet : string) (e : exn) :
  lookup_config w "OPENAI_API_KEY" = Some key → key ≠ EmptyString →
  select_poet (randbelow w) poets = Ok poet →
  system_instruction w poet = Raise e → is_Exception e = true →
  get_poem w d = ([generation_error e], Ok (None, None)).
Proof.
  intros Hkey Hne Hpoet Hsys Hexc.
  rewrite get_poem_unfold, Hkey, Hpoet, Hsys. unfold handled.
  apply String.eqb_neq in Hne. by rewrite Hne, Hexc.
Qed.

(** X6.  An answer of the provider without any choice is a failure like the
    others: after the request [get_poem] renders the error with the text of
    the [IndexError] and returns [(None, None)]. *)
Theorem empty_choices_are_reported (w : World)
    (d key poet system : string) (response : ChatCompletion)
    (Hkey : lookup_config w "OPENAI_API_KEY" = Some key)
    (Hne : key ≠ EmptyString)
    (Hpoet : select_poet (randbelow w) poets = Ok poet)
    (Hsys : system_instruction w poet = Ok system)
    (Hcall : provider w key model_id system d = Ok response)
    (Hnone : choices response = []) :
  get_poem w d
  = ([ApiCall key model_id system d;
      StError "Error generating poem: list index out of range"],
     Ok (None, None)).
Proof.
  rewrite get_poem_unfold, Hkey, Hpoet, Hsys. simpl. rewrite Hcall, Hnone.
  apply String.eqb_neq in Hne. by rewrite Hne.
Qed.

Lemma empty_choices_are_reported_witness :
  get_poem world_new_password "It rained."
  = ([ApiCall "sk-1" model_id
        "You are Robert Frost. Write a short poem based on the user's description of their day."
        "It rained.";
      StError "Error generating poem: list index out of range"],
     Ok (None, None)).
Proof.
  apply (empty_choices_are_reported world_new_password "It rained." "sk-1"
           "Robert Frost"
           "You are Robert Frost. Write a short poem based on the user's description of their day."
           {| choices := [] |}); done.
Defined.

Lemma system_instruction_unbalanced (w : World) (poet pre tail : string) :
  brace_free pre = true → tail ∈ ["{"; "}"; "{poet"] →
  system_prompt_template w = pre +:+ tail →
  ∃ msg, system_instruction w poet = Raise (Exn ValueError msg).
Proof.
  intros Hfree Htail Ht. unfold system_instruction, py_format.
  rewrite Ht, format_scan_text by done.
  elem_cases Htail; by eexists.
Qed.

(** X7.  A configured template that ends in an unbalanced brace (a lone
    opening or closing brace, or [{poet] left open) never reaches the
    provider: [get_poem] renders the formatting error, sends no request and
    returns [(None, None)]. *)
Theorem unbalanced_template_is_reported (w : World)
    (d key poet pre tail : string)
    (Hkey : lookup_config w "OPENAI_API_KEY" = Some key)
    (Hne : key ≠ EmptyString)
    (Hpoet : select_poet (randbelow w) poets = Ok poet)
    (Hfree : brace_free pre = true)
    (Htail : tail ∈ ["{"; "}"; "{poet"])
    (Ht : system_prompt_template w = pre +:+ tail) :
  ∃ msg,
    get_poem w d
    = ([StError ("Error generating poem: " +:+ msg)], Ok (None, None))
    ∧ requests (events (get_poem w d)) = 0.
Proof.
  destruct (system_instruction_unbalanced w poet pre tail Hfree Htail Ht)
    as [msg Hsys].
  exists msg.
  rewrite (get_poem_format_failure w d key poet _ Hkey Hne Hpoet Hsys) by done.
  done.
Qed.

Lemma unbalanced_template_is_reported_witness :
  ∃ msg,
    get_poem world_open_brace "It rained."
    = ([StError ("Error generating poem: " +:+ msg)], Ok (None, None))
    ∧ requests (events (get_poem world_open_brace "It rained.")) = 0.
Proof.
  apply (unbalanced_template_is_reported world_open_brace "It rained." "sk-1"
           "Robert Frost" "Write as " "{poet"); try done.
  do 2 apply list_elem_of_further. apply list_elem_of_here.
Defined.

(** ** What is rendered after a request *)

Lemma get_poem_returns_poet (w : World) (d poet : string)
    (text : option string) :
  outcome (get_poem w d) = Ok (text, Some poet) →
  ∃ key system response rest,
    lookup_config w "OPENAI_API_KEY" = Some key
    ∧ select_poet (randbelow w) poets = Ok poet
    ∧ system_instruction w poet = Ok system
    ∧ provider w key model_id system d = Ok response
    ∧ choices response = {| message_content := text |} :: rest
    ∧ events (get_poem w d) = [ApiCall key model_id system d].
Proof.
  rewrite get_poem_unfold. unfold handled, events, outcome.
  destruct (lookup_config w "OPENAI_API_KEY") as [key|]; [|done].
  destruct (String.eqb key EmptyString); [done|].
  destruct (select_poet _ _) as [poet'|e]; [|done].
  destruct (system_instruction w poet') as [system|e] eqn:Hsys;
    [|by destruct (is_Exception e)].
  simpl.
  destruct (provider w key model_id system d) as [response|e] eqn:Hcall;
    [|by destruct (is_Exception e)].
  destruct (choices response) as [|[content] rest] eqn:Hchoices; [done|].
  simpl. intros [= <- <-]. by exists key, system, response, rest.
Qed.

Lemma main_passed (w : World) (ss : gmap string pyval) (form : FormInput) :
  configured w && authenticated ss = true →
  main w ss form
  = ([StPageConfig; StStyle; StTitle "How was your day today?";
      StForm "day_form"] ++ events (handle_submit (past_gate w) form),
     outcome (handle_submit (past_gate w) form)).
Proof. intros Hok. by rewrite main_unfold, Hok. Qed.

(** A lookup changes the environment and nothing else of the world. *)
Lemma after_lookup_outside (w : World) (key : string) :
  randbelow (after_lookup w key) = randbelow w
  ∧ provider (after_lookup w key) = provider w
  ∧ format_other (after_lookup w key) = format_other w
  ∧ secrets (after_lookup w key) = secrets w.
Proof.
  unfold after_lookup, read_secrets.
  destruct (truthy_opt (getenv w key)); [done|].
  by destruct (secrets w) eqn:Hs.
Qed.

(** X8.  A poem on the page is never empty, and it is what was asked for:
    the run called the provider's client with a system message that names
    the persona of the attribution, one of the listed poets, and with the
    visitor's text as the user message, and the poem is the content of the
    first choice of the answer.  Key and system message are those of the
    world in which the run goes on past the gate. *)
Theorem rendered_poem_matches_request (w : World) (ss : gmap string pyval)
    (form : FormInput) (poem poet : string)
    (Hpoem : StPoem poem poet ∈ events (main w ss form)) :
  poem ≠ EmptyString
  ∧ poet ∈ poets
  ∧ ∃ key system response rest,
      ApiCall key model_id system (day_input form) ∈ events (main w ss form)
      ∧ lookup_config (past_gate w) "OPENAI_API_KEY" = Some key
      ∧ system_instruction (past_gate w) poet = Ok system
      ∧ provider w key model_id system (day_input form) = Ok response
      ∧ choices response = {| message_content := Some poem |} :: rest.
Proof.
  destruct (main_events _ _ _ _ Hpoem eq_refl) as [Hok Hin].
  rewrite (main_passed _ _ _ Hok). clear Hpoem.
  rewrite handle_submit_cases in *.
  destruct (submitted form); [|by elem_cases Hin].
  destruct (String.eqb (strip (day_input form)) EmptyString);
    [by elem_cases Hin|].
  simpl in *. unfold events at 1 in Hin. simpl in Hin.
  apply elem_of_cons in Hin as [[=]|Hin].
  apply elem_of_cons in Hin as [[=]|Hin].
  apply elem_of_app in Hin as [Hin|Hin].
  { by destruct (get_poem_events _ _ _ Hin) as [[? [=]]|(? & ? & [=])]. }
  destruct (outcome (get_poem (past_gate w) (day_input form)))
    as [[[poem'|] [poet'|]]|e] eqn:Hout; simpl in Hin;
    try by elem_cases Hin.
  destruct (negb (String.eqb poem' EmptyString)) eqn:Hfull;
    [|by elem_cases Hin].
  destruct (negb (String.eqb poet' EmptyString)); [|by elem_cases Hin].
  simpl in Hin. apply list_elem_of_singleton in Hin as [= -> ->].
  apply negb_true_iff, String.eqb_neq in Hfull.
  destruct (get_poem_returns_poet _ _ _ _ Hout)
    as (key & system & response & rest & Hkey & Hsel & Hsys & Hcall & Hch
        & Hev).
  destruct (after_lookup_outside w "APP_PASSWORD") as (Hrand & Hprov & _).
  fold (past_gate w) in Hrand, Hprov. rewrite Hrand in Hsel.
  rewrite Hprov in Hcall.
  split; [done|]. split; [by apply (select_poet_member (randbelow w))|].
  exists key, system, response, rest. split; [|done].
  assert (Hreq : ApiCall key model_id system (day_input form)
                   ∈ events (get_poem (past_gate w) (day_input form)))
    by (rewrite Hev; apply list_elem_of_here).
  unfold events at 1. simpl. do 6 apply list_elem_of_further.
  apply elem_of_app. left. exact Hreq.
Qed.

Lemma rendered_poem_matches_request_witness :
  "Rain taps soft" ≠ EmptyString ∧ "Robert Frost" ∈ poets.
Proof.
  destruct (rendered_poem_matches_request world_ok
              {[ "password_correct" := VBool true ]}
              {| day_input := "It rained."; submitted := true |}
              "Rain taps soft" "Robert Frost") as (Hne & Hin & _).
  - vm_compute. do 7 apply list_elem_of_further. apply list_elem_of_here.
  - by split.
Defined.

(** X9.  When the provider's answer has no content, or the empty string,
    the run past the gate ends normally after the request and renders
    nothing for it: no poem, no error, no message.  Key and system message
    are those of the world in which the run goes on past the gate. *)
Theorem empty_completion_renders_nothing (w : World)
    (ss : gmap string pyval) (d key poet system : string)
    (response : ChatCompletion) (c : Choice) (rest : list Choice)
    (Hgate : configured w && authenticated ss = true)
    (Hfull : strip d ≠ EmptyString)
    (Hkey : lookup_config (past_gate w) "OPENAI_API_KEY" = Some key)
    (Hne : key ≠ EmptyString)
    (Hpoet : select_poet (randbelow w) poets = Ok poet)
    (Hsys : system_instruction (past_gate w) poet = Ok system)
    (Hcall : provider w key model_id system d = Ok response)
    (Hchoices : choices response = c :: rest)
    (Hempty : message_content c = None
              ∨ message_content c = Some EmptyString) :
  main w ss {| day_input := d; submitted := true |}
  = ([StPageConfig; StStyle; StTitle "How was your day today?";
      StForm "day_form"; StSpinner "Writing..."; CallGetPoem d;
      ApiCall key model_id system d],
     Ok tt).
Proof.
  destruct (after_lookup_outside w "APP_PASSWORD") as (Hrand & Hprov & _).
  fold (past_gate w) in Hrand, Hprov.
  assert (Hget : get_poem (past_gate w) d
            = ([ApiCall key model_id system d],
               Ok (message_content c, Some poet))).
  { rewrite get_poem_unfold, Hkey, Hrand, Hpoet, Hsys, Hprov. simpl.
    rewrite Hcall, Hchoices. apply String.eqb_neq in Hne. by rewrite Hne. }
  rewrite (main_passed _ _ _ Hgate), handle_submit_unfold, Hget by done.
  by destruct Hempty as [-> | ->].
Qed.

Lemma empty_completion_renders_nothing_witness :
  main world_silent {[ "password_correct" := VBool true ]}
    {| day_input := "It rained."; submitted := true |}
  = ([StPageConfig; StStyle; StTitle "How was your day today?";
      StForm "day_form"; StSpinner "Writing..."; CallGetPoem "It rained.";
      ApiCall "sk-1" model_id
        "You are Robert Frost. Write a short poem based on the user's description of their day."
        "It rained."],
     Ok tt).
Proof.
  apply (empty_completion_renders_nothing world_silent
           {[ "password_correct" := VBool true ]} "It rained." "sk-1"
           "Robert Frost"
           "You are Robert Frost. Write a short poem based on the user's description of their day."
           {| choices := [ {| message_content := None |} ] |}
           {| message_content := None |} []); try done.
  by left.
Defined.

(** X10.  With no API key, a submission past the gate ends normally with
    the key error on the page: no request is sent and no poem rendered. *)
Theorem submission_without_key (w : World) (ss : gmap string pyval)
    (d : string)
    (Hgate : configured w && authenticated ss = true)
    (Hfull : strip d ≠ EmptyString)
    (Hnokey : truthy_opt (lookup_config w "OPENAI_API_KEY") = false) :
  main w ss {| day_input := d; submitted := true |}
  = ([StPageConfig; StStyle; StTitle "How was your day today?";
      StForm "day_form"; StSpinner "Writing..."; CallGetPoem d;
      StError key_missing_msg],
     Ok tt).
Proof.
  rewrite (main_passed _ _ _ Hgate), handle_submit_unfold by done.
  rewrite get_poem_without_key; [done|].
  by apply lookup_config_missing_after.
Qed.

Lemma submission_without_key_witness :
  main world_without_key {[ "password_correct" := VBool true ]}
    {| day_input := "It rained."; submitted := true |}
  = ([StPageConfig; StStyle; StTitle "How was your day today?";
      StForm "day_form"; StSpinner "Writing..."; CallGetPoem "It rained.";
      StError key_missing_msg],
     Ok tt).
Proof.
  apply (submission_without_key world_without_key
           {[ "password_correct" := VBool true ]} "It rained."); done.
Defined.

(** ** No failure ends the script *)

Lemma out_char_raise (c : ascii) (r : option (result string)) (e : exn) :
  out_char c r = Some (Raise e) → r = Some (Raise e).
Proof. by destruct r as [[?|?]|]. Qed.

Lemma out_string_raise (s : string) (r : option (result string)) (e : exn) :
  out_string s r = Some (Raise e) → r = Some (Raise e).
Proof. by destruct r as [[?|?]|]. Qed.

Lemma format_scan_raises (v t : string) (st : scan_state) (e : exn) :
  format_scan v st t = Some (Raise e) → exn_cls e = ValueError.
Proof.
  revert st. induction t as [|c t IH]; intros st.
  - destruct st; simpl; by intros [= <-].
  - destruct st; simpl;
      repeat match goal with
             | |- context [if ?b then _ else _] => destruct b
             end;
      try done; try apply IH;
      try (intros H; apply out_char_raise in H; revert H; apply IH);
      try (intros H; apply out_string_raise in H; revert H; apply IH).
    by intros [= <-].
Qed.

Lemma system_instruction_raises (w : World) (poet : string) (e : exn) :
  well_behaved w → system_instruction w poet = Raise e →
  is_Exception e = true.
Proof.
  intros (_ & _ & Hfmt). unfold system_instruction, py_format.
  destruct (format_scan poet Text (system_prompt_template w))
    as [[s|e']|] eqn:Hscan.
  - done.
  - intros [= ->]. apply format_scan_raises in Hscan.
    unfold is_Exception. by rewrite Hscan.
  - apply Hfmt.
Qed.

Lemma get_poem_returns (w : World) (d : string) :
  well_behaved w → ∃ pair, outcome (get_poem w d) = Ok pair.
Proof.
  intros Hw. pose proof Hw as (Hdraw & Hprov & _).
  rewrite get_poem_unfold. unfold handled, outcome.
  destruct (lookup_config w "OPENAI_API_KEY") as [key|]; [|by eexists].
  destruct (String.eqb key EmptyString); [by eexists|].
  destruct (select_poet_in_range _ _ Hdraw) as (poet & -> & _).
  destruct (system_instruction w poet) as [system|e] eqn:Hsys.
  - simpl.
    destruct (provider w key model_id system d) as [response|e] eqn:Hcall.
    + destruct (choices response); by eexists.
    + rewrite (Hprov _ _ _ _ _ Hcall). by eexists.
  - rewrite (system_instruction_raises _ _ _ Hw Hsys). by eexists.
Qed.

Lemma well_behaved_after (w : World) (key : string) :
  well_behaved w → well_behaved (after_lookup w key).
Proof.
  destruct (after_lookup_outside w key) as (Hrand & Hprov & Hfmt & _).
  unfold well_behaved. by rewrite Hrand, Hprov, Hfmt.
Qed.

(** X11.  In a world that behaves, no failure ends the script abnormally:
    [get_poem] always returns a pair, and a run of [main] either finishes or
    stops at the gate, which it does exactly when the password is not
    configured or the session is not authenticated. *)
Theorem run_never_crashes (w : World) (ss : gmap string pyval)
    (form : FormInput) (d : string)
    (Hw : well_behaved w) :
  (∃ pair, outcome (get_poem w d) = Ok pair)
  ∧ (outcome (main w ss form) = Ok tt ∨ outcome (main w ss form) = stopped)
  ∧ (outcome (main w ss form) = stopped
     ↔ configured w && authenticated ss = false).
Proof.
  split; [by apply get_poem_returns|].
  assert (Hdone : outcome (handle_submit (past_gate w) form) = Ok tt).
  { rewrite handle_submit_cases. destruct (submitted form); [|done].
    destruct (String.eqb (strip (day_input form)) EmptyString); [done|].
    destruct (get_poem_returns (past_gate w) (day_input form)
                (well_behaved_after w "APP_PASSWORD" Hw)) as [pair Hpair].
    unfold outcome at 1. simpl. by rewrite Hpair. }
  rewrite main_unfold. destruct (configured w && authenticated ss).
  - unfold outcome at 1 2 3. simpl. rewrite Hdone.
    split; [by left|]. split; done.
  - split; [by right|]. split; done.
Qed.

Lemma run_never_crashes_witness :
  ∃ pair, outcome (get_poem world_down "It rained.") = Ok pair.
Proof.
  apply (run_never_crashes world_down ∅ no_submit "It rained.").
  split; [simpl; lia|]. split.
  - by intros key model system user e [= <-].
  - by intros t v e [=].
Defined.

(** ** The guard on visible text *)

Lemma space2_not_solid (a b : ascii) :
  space2 a b = true → solid a = false ∧ solid b = false.
Proof.
  unfold space2, solid.
  rewrite andb_true_iff, orb_true_iff, !Nat.eqb_eq. intros Hsp.
  split; apply andb_false_iff; left; apply Nat.ltb_ge; lia.
Qed.

Lemma space3_not_solid (a b c : ascii) :
  space3 a b c = true →
  solid a = false ∧ solid b = false ∧ solid c = false.
Proof.
  unfold space3, solid.
  rewrite !orb_true_iff, !andb_true_iff, !orb_true_iff, !andb_true_iff,
    !Nat.eqb_eq, !Nat.leb_le.
  intros Hsp.
  repeat split; apply andb_false_iff; left; apply Nat.ltb_ge; lia.
Qed.

Lemma lstrip_with_solid (sp2 : ascii → ascii → bool)
    (sp3 : ascii → ascii → ascii → bool) (s : string) :
  (∀ a b, sp2 a b = true → solid a = false ∧ solid b = false) →
  (∀ a b c, sp3 a b c = true →
     solid a = false ∧ solid b = false ∧ solid c = false) →
  has_solid s = true → has_solid (lstrip_with sp2 sp3 s) = true.
Proof.
  intros H2 H3.
  assert (Hlen : ∀ n s, (String.length s ≤ n)%nat →
            has_solid s = true → has_solid (lstrip_with sp2 sp3 s) = true).
  { clear s. induction n as [|n IH]; intros s Hn Hs.
    { destruct s; [done|]. simpl in Hn. lia. }
    destruct s as [|a s1]; [done|]. simpl in Hn, Hs |- *.
    destruct (space1 a) eqn:Ha.
    { unfold solid in Hs. rewrite Ha, andb_false_r in Hs.
      apply IH; [lia|done]. }
    destruct s1 as [|b s2]; [done|]. simpl in Hn, Hs.
    destruct (sp2 a b) eqn:Hab.
    { destruct (H2 _ _ Hab) as [Hsa Hsb]. rewrite Hsa, Hsb in Hs.
      apply IH; [lia|done]. }
    destruct s2 as [|c s3]; [done|]. simpl in Hn, Hs.
    destruct (sp3 a b c) eqn:Habc; [|done].
    destruct (H3 _ _ _ Habc) as (Hsa & Hsb & Hsc).
    rewrite Hsa, Hsb, Hsc in Hs. apply IH; [lia|done]. }
  by apply (Hlen (String.length s)).
Qed.

Lemma has_solid_rev_app (s1 s2 : string) :
  has_solid (String.rev_app s1 s2) = has_solid s1 || has_solid s2.
Proof.
  revert s2. induction s1 as [|a s1 IH]; intros s2; [done|].
  simpl. rewrite IH. simpl.
  destruct (solid a), (has_solid s1), (has_solid s2); done.
Qed.

Lemma has_solid_rev (s : string) : has_solid (String.rev s) = has_solid s.
Proof. unfold String.rev. by rewrite has_solid_rev_app, orb_false_r. Qed.

Lemma strip_solid (s : string) :
  has_solid s = true → strip s ≠ EmptyString.
Proof.
  intros Hs.
  assert (has_solid (strip s) = true) as Hstrip.
  { unfold strip, rstrip, lstrip.
    rewrite has_solid_rev. apply lstrip_with_solid.
    - intros a b Hsp. destruct (space2_not_solid _ _ Hsp). by split.
    - intros a b c Hsp. destruct (space3_not_solid _ _ _ Hsp) as (? & ? & ?).
      by repeat split.
    - rewrite has_solid_rev. apply lstrip_with_solid;
        [apply space2_not_solid|apply space3_not_solid|done]. }
  intros Hempty. by rewrite Hempty in Hstrip.
Qed.

(** X12.  Past the gate, a submitted text made of spaces, tabs and line
    breaks only gets the informational message and nothing else, and a
    submitted text that holds any ASCII character other than whitespace is
    handed to [get_poem] as typed, surrounding whitespace included. *)
Theorem guard_on_ascii_text (w : World) (ss : gmap string pyval) (d : string)
    (Hgate : configured w && authenticated ss = true) :
  (blank d = true →
     main w ss {| day_input := d; submitted := true |}
     = ([StPageConfig; StStyle; StTitle "How was your day today?";
         StForm "day_form"; StInfo empty_input_msg], Ok tt))
  ∧ (has_solid d = true →
     CallGetPoem d
       ∈ events (main w ss {| day_input := d; submitted := true |})).
Proof.
  rewrite (main_passed _ _ _ Hgate). split.
  - intros Hblank. apply strip_blank in Hblank.
    by rewrite handle_submit_blank.
  - intros Hsolid. apply strip_solid in Hsolid.
    rewrite handle_submit_unfold by done.
    do 5 apply list_elem_of_further. apply list_elem_of_here.
Qed.

Lemma guard_on_ascii_text_witness :
  CallGetPoem "  It rained. "
    ∈ events (main world_ok {[ "password_correct" := VBool true ]}
                {| day_input := "  It rained. "; submitted := true |}).
Proof.
  apply (guard_on_ascii_text world_ok {[ "password_correct" := VBool true ]}
           "  It rained. "); reflexivity.
Defined.

(** ** The reveal *)

Lemma append_assoc (a b c : string) : (a +:+ b) +:+ c = a +:+ (b +:+ c).
Proof. induction a as [|x a IH]; [done|]. by rewrite !append_cons, IH. Qed.

Lemma utf8_chars_concat (s : string) : concat_strings (utf8_chars s) = s.
Proof.
  induction s as [|a rest IH]; [done|].
  destruct rest as [|b rest'].
  - done.
  - change (utf8_chars (String a (String b rest')))
      with (if is_continuation b then
              match utf8_chars (String b rest') with
              | c :: cs => String a c :: cs
              | [] => [String a EmptyString]
              end
            else String a EmptyString :: utf8_chars (String b rest')).
    destruct (is_continuation b).
    + destruct (utf8_chars (String b rest')) as [|c cs]; [done|].
      simpl in IH |- *. by rewrite append_cons, IH.
    + simpl in IH |- *. by rewrite IH.
Qed.


Lemma full_texts_last (acc : string) (chars : list string) :
  chars ≠ [] →
  last (full_texts acc chars) = Some (acc +:+ concat_strings chars).
Proof.
  revert acc. induction chars as [|c chars IH]; intros acc Hne; [done|].
  destruct chars as [|c' chars].
  - simpl. by rewrite append_empty_r.
  - change (last (full_texts acc (c :: c' :: chars)))
      with (last (full_texts (acc +:+ c) (c' :: chars))).
    rewrite IH by done. simpl. by rewrite append_assoc.
Qed.




Lemma has_newline_app (a b : string) :
  has_newline (a +:+ b) = has_newline a || has_newline b.
Proof.
  induction a as [|x a IH]; [done|]. rewrite append_cons. simpl.
  by rewrite IH, orb_assoc.
Qed.

Lemma replace_newlines_clean (s : string) :
  has_newline (replace_newlines s) = false.
Proof.
  induction s as [|a s IH]; [done|]. simpl.
  destruct (Ascii.eqb a newline) eqn:Ha.
  - by rewrite has_newline_app, IH.
  - simpl. by rewrite Ha, IH.
Qed.

Lemma replace_newlines_verbatim (s : string) :
  has_newline s = false → replace_newlines s = s.
Proof.
  induction s as [|a s IH]; [done|]. simpl.
  destruct (Ascii.eqb a newline); [done|]. simpl. by intros ->%IH.
Qed.


(** X14.  No text of the reveal holds a line break of the poem, and nothing
    else is changed on the way to the page: a poem without line breaks is
    put into the markup exactly as the provider returned it. *)
Theorem reveal_text_is_the_poem (poem : string) :
  (∀ h, h ∈ current_htmls poem → has_newline h = false)
  ∧ has_newline (replace_newlines poem) = false
  ∧ (has_newline poem = false →
     replace_newlines poem = poem
     ∧ (poem ≠ EmptyString → last (current_htmls poem) = Some poem)).
Proof.
  split; [|split].
  - intros h. unfold current_htmls. rewrite list_elem_of_fmap.
    intros (p & -> & _). apply replace_newlines_clean.
  - apply replace_newlines_clean.
  - intros Hclean. pose proof (replace_newlines_verbatim _ Hclean) as Hsame.
    split; [done|]. intros Hne. unfold current_htmls.
    rewrite fmap_last, full_texts_last.
    + rewrite utf8_chars_concat. simpl.
      change (EmptyString +:+ poem) with poem. by rewrite Hsame.
    + intros Hnil. pose proof (utf8_chars_concat poem) as Hc.
      rewrite Hnil in Hc. by symmetry in Hc.
Qed.

(** ** A submission that succeeds *)

Lemma poets_nonempty (poet : string) : poet ∈ poets → poet ≠ EmptyString.
Proof. intros Hin. unfold poets in Hin. by elem_cases Hin. Qed.

(** X15.  When a key is found, the template formats and the provider
    answers, a submission past the gate calls the provider's client once
    and renders the content of the first choice of the answer, whatever
    other choices follow, attributed to the selected persona; the run ends
    normally.  Key and system message are those of the world in which the
    run goes on past the gate. *)
Theorem successful_submission (w : World) (ss : gmap string pyval)
    (d key poet system text : string) (response : ChatCompletion)
    (rest : list Choice)
    (Hgate : configured w && authenticated ss = true)
    (Hfull : strip d ≠ EmptyString)
    (Hkey : lookup_config (past_gate w) "OPENAI_API_KEY" = Some key)
    (Hne : key ≠ EmptyString)
    (Hpoet : select_poet (randbelow w) poets = Ok poet)
    (Hsys : system_instruction (past_gate w) poet = Ok system)
    (Hcall : provider w key model_id system d = Ok response)
    (Hchoices : choices response = {| message_content := Some text |} :: rest)
    (Htext : text ≠ EmptyString) :
  main w ss {| day_input := d; submitted := true |}
  = ([StPageConfig; StStyle; StTitle "How was your day today?";
      StForm "day_form"; StSpinner "Writing..."; CallGetPoem d;
      ApiCall key model_id system d; StPoem text poet],
     Ok tt).
Proof.
  destruct (after_lookup_outside w "APP_PASSWORD") as (Hrand & Hprov & _).
  fold (past_gate w) in Hrand, Hprov.
  assert (Hget : get_poem (past_gate w) d
            = ([ApiCall key model_id system d], Ok (Some text, Some poet))).
  { rewrite get_poem_unfold, Hkey, Hrand, Hpoet, Hsys, Hprov. simpl.
    rewrite Hcall, Hchoices. apply String.eqb_neq in Hne. by rewrite Hne. }
  assert (Hname : poet ≠ EmptyString).
  { apply poets_nonempty. by apply (select_poet_member (randbelow w)). }
  rewrite (main_passed _ _ _ Hgate), handle_submit_unfold, Hget by done.
  simpl. apply String.eqb_neq in Htext, Hname. by rewrite Htext, Hname.
Qed.

Lemma successful_submission_witness :
  main world_store_first {[ "password_correct" := VBool true ]}
    {| day_input := "It rained all day and I stayed in.";
       submitted := true |}
  = ([StPageConfig; StStyle; StTitle "How was your day today?";
      StForm "day_form"; StSpinner "Writing...";
      CallGetPoem "It rained all day and I stayed in.";
      ApiCall "sk-store" model_id "B Robert Frost"
        "It rained all day and I stayed in.";
      StPoem "Rain taps soft" "Robert Frost"],
     Ok tt).
Proof.
  apply (successful_submission world_store_first
           {[ "password_correct" := VBool true ]}
           "It rained all day and I stayed in." "sk-store" "Robert Frost"
           "B Robert Frost" "Rain taps soft"
           {| choices := [ {| message_content := Some "Rain taps soft" |} ] |}
           []); done.
Defined.

Lemma get_poem_request_key (w : World) (d key model system user : string) :
  ApiCall key model system user ∈ events (get_poem w d) →
  key ≠ EmptyString.
Proof.
  rewrite get_poem_unfold. unfold handled, events.
  destruct (lookup_config w "OPENAI_API_KEY") as [k|];
    [|intros Hev; by elem_cases Hev].
  destruct (String.eqb k EmptyString) eqn:Hk;
    [intros Hev; by elem_cases Hev|].
  apply String.eqb_neq in Hk.
  repeat match goal with
         | |- context [match ?x with _ => _ end] => destruct x
         end; simpl; intros Hev; by elem_cases Hev.
Qed.

(** X16.  Every call of the provider's client in a run of [main] carries
    the API key configured in the world in which the run goes on past the
    gate, which is not empty, the fixed model name, the visitor's text as
    typed, and as system message the template of that world formatted with
    a persona of the list. *)
Theorem request_is_well_formed (w : World) (ss : gmap string pyval)
    (form : FormInput) (key model system user : string)
    (Hreq : ApiCall key model system user ∈ events (main w ss form)) :
  lookup_config (past_gate w) "OPENAI_API_KEY" = Some key
  ∧ key ≠ EmptyString
  ∧ model = "gpt-5.1"
  ∧ user = day_input form
  ∧ ∃ poet, poet ∈ poets ∧ system_instruction (past_gate w) poet = Ok system.
Proof.
  destruct (main_events _ _ _ _ Hreq eq_refl) as [_ Hin].
  rewrite handle_submit_cases in Hin.
  destruct (submitted form); [|by elem_cases Hin].
  destruct (String.eqb (strip (day_input form)) EmptyString);
    [by elem_cases Hin|].
  unfold events at 1 in Hin. simpl in Hin.
  apply elem_of_cons in Hin as [[=]|Hin].
  apply elem_of_cons in Hin as [[=]|Hin].
  apply elem_of_app in Hin as [Hin|Hin].
  - pose proof (get_poem_request_key _ _ _ _ _ _ Hin) as Hk.
    destruct (get_poem_request _ _ _ _ _ _ Hin)
      as (poet & Hsel & Hsys & Hkey & -> & ->).
    repeat split; try done. exists poet. split; [|done].
    by apply (select_poet_member (randbelow (past_gate w))).
  - destruct (outcome (get_poem (past_gate w) (day_input form)))
      as [[[poem'|] [poet'|]]|e]; simpl in Hin; try by elem_cases Hin.
    destruct (_ && _); by elem_cases Hin.
Qed.

Lemma request_is_well_formed_witness :
  lookup_config (past_gate world_store_first) "OPENAI_API_KEY"
  = Some "sk-store"
  ∧ "sk-store" ≠ EmptyString.
Proof.
  destruct (request_is_well_formed world_store_first
              {[ "password_correct" := VBool true ]}
              {| day_input := "It rained."; submitted := true |}
              "sk-store" "gpt-5.1" "B Robert Frost" "It rained.")
    as (Hkey & Hne & _).
  - vm_compute. do 6 apply list_elem_of_further. apply list_elem_of_here.
  - by split.
Defined.
